(** * angular-rest: the declarative REST client of [src/index.ts]

    The development embeds the decorators of [src/index.ts] and the method
    body that [methodBuilder] installs on a decorated method: it assembles
    the request (body, URL, query, headers), runs the request interceptor,
    hands the request to [Http.request], maps the observable through
    [res.json()] when [@Produces(MediaType.JSON)] is set, and finally runs
    the response interceptor.

    Layout: (I) ECMAScript values and the built-ins the source calls;
    (II) the objects the source allocates ([Headers], [URLSearchParams],
    the request) in an explicit store; (III) the decorators and the method
    body; (IV) the properties. *)

From Stdlib Require Import ZArith Ascii String List Lia.
From stdpp Require Import base option list strings pretty gmap.

Local Open Scope string_scope.
Local Set Warnings "-register-all".

(** ** I. ECMAScript values *)

(** The values a call can pass in [args: any[]].  Numbers are the
    integer-valued ones (printed in decimal by ToString, which is what
    ECMAScript does for integers of magnitude below 10^21); strings are
    sequences of bytes, read as the UTF-8 form of the JavaScript string;
    an object is the list of its own enumerable properties in enumeration
    order.  Functions, symbols, big integers, cyclic objects, objects with
    a [toJSON] method and strings with a lone surrogate are not
    represented, and with them the cases in which [JSON.stringify] or
    [encodeURIComponent] throw.  A value is what an argument holds at the
    time of the call; which object of the caller it is, is followed
    separately (see [Held]). *)
Inductive JsValue : Type :=
| JUndefined
| JNull
| JBool (b : bool)
| JNum (n : Z)
| JStr (s : string)
| JArr (elems : list JsValue)
| JObj (props : list (string * JsValue)).

(** ToBoolean: the falsy values are [undefined], [null], [false], [0] and
    the empty string. *)
Definition ToBoolean (v : JsValue) : bool :=
  match v with
  | JUndefined | JNull => false
  | JBool b => b
  | JNum n => negb (n =? 0)%Z
  | JStr EmptyString => false
  | JStr (String _ _) => true
  | JArr _ | JObj _ => true
  end.

(** [v instanceof Object] *)
Definition instanceof_Object (v : JsValue) : bool :=
  match v with
  | JArr _ | JObj _ => true
  | _ => false
  end.

(** [Array.isArray(v)] *)
Definition isArray (v : JsValue) : bool :=
  match v with
  | JArr _ => true
  | _ => false
  end.

(** ToString.  An array prints as [join(",")], where [undefined] and [null]
    elements print as the empty string; a plain object prints as
    [[object Object]]. *)
Fixpoint ToString (v : JsValue) : string :=
  match v with
  | JUndefined => "undefined"
  | JNull => "null"
  | JBool true => "true"
  | JBool false => "false"
  | JNum n => pretty n
  | JStr s => s
  | JArr l =>
      String.concat ","
        (map (fun e => match e with
                       | JUndefined | JNull => EmptyString
                       | _ => ToString e
                       end) l)
  | JObj _ => "[object Object]"
  end.

(** [args[i]]: reading past the end of the array gives [undefined]. *)
Definition arg (args : list JsValue) (i : nat) : JsValue :=
  default JUndefined (args !! i).

(** *** Hexadecimal digits and character classes *)

Definition hex_digit (upper : bool) (d : N) : ascii :=
  if (d <? 10)%N then ascii_of_N (48 + d)
  else ascii_of_N ((if upper then 55 else 87) + d).

Definition in_range (lo hi : N) (c : ascii) : bool :=
  let n := N_of_ascii c in ((lo <=? n) && (n <=? hi))%N.

Definition is_alnum (c : ascii) : bool :=
  in_range 48 57 c || in_range 65 90 c || in_range 97 122 c.

(** The characters [encodeURIComponent] leaves alone:
    letters, digits and [- _ . ! ~ * ' ( )]. *)
Definition uri_unreserved (c : ascii) : bool :=
  is_alnum c
  || existsb (Ascii.eqb c)
       ["-"; "_"; "."; "!"; "~"; "*"; "'"; "("; ")"]%char.

Definition percent_encode_char (c : ascii) : string :=
  if uri_unreserved c then String c EmptyString
  else
    let n := N_of_ascii c in
    String "%"%char
      (String (hex_digit true (n / 16))
         (String (hex_digit true (n mod 16)) EmptyString)).

Fixpoint percent_encode (s : string) : string :=
  match s with
  | EmptyString => EmptyString
  | String c r => percent_encode_char c +:+ percent_encode r
  end.

(** [encodeURIComponent(v)]: ToString, then every byte of the UTF-8 form
    outside the unreserved set becomes [%XX]. *)
Definition encodeURIComponent (v : JsValue) : string :=
  percent_encode (ToString v).

(** *** JSON.stringify *)

Definition dquote : ascii := "034"%char.
Definition backslash : ascii := "092"%char.

Definition json_escape_char (c : ascii) : string :=
  let n := N_of_ascii c in
  let esc (x : ascii) := String backslash (String x EmptyString) in
  if (n =? 34)%N then esc dquote
  else if (n =? 92)%N then esc backslash
  else if (n =? 8)%N then esc "b"%char
  else if (n =? 9)%N then esc "t"%char
  else if (n =? 10)%N then esc "n"%char
  else if (n =? 12)%N then esc "f"%char
  else if (n =? 13)%N then esc "r"%char
  else if (n <? 32)%N then
    String backslash
      (String "u"%char (String "0"%char (String "0"%char
         (String (hex_digit false (n / 16))
            (String (hex_digit false (n mod 16)) EmptyString)))))
  else String c EmptyString.

Fixpoint json_escape (s : string) : string :=
  match s with
  | EmptyString => EmptyString
  | String c r => json_escape_char c +:+ json_escape r
  end.

Definition json_quote (s : string) : string :=
  String dquote (json_escape s +:+ String dquote EmptyString).

(** The text [JSON.stringify] produces, [None] where it produces
    [undefined].  Inside an array [undefined] prints as [null]; inside an
    object a property whose value is [undefined] is left out. *)
Fixpoint json_serialize (v : JsValue) : option string :=
  match v with
  | JUndefined => None
  | JNull => Some "null"
  | JBool true => Some "true"
  | JBool false => Some "false"
  | JNum n => Some (pretty n)
  | JStr s => Some (json_quote s)
  | JArr l =>
      Some ("[" +:+
            String.concat ","
              (map (fun e => default "null" (json_serialize e)) l)
            +:+ "]")
  | JObj ps =>
      Some ("{" +:+
            String.concat ","
              ((fix members (ps : list (string * JsValue)) : list string :=
                  match ps with
                  | [] => []
                  | (k, e) :: rest =>
                      match json_serialize e with
                      | Some s => (json_quote k +:+ ":" +:+ s) :: members rest
                      | None => members rest
                      end
                  end) ps)
            +:+ "}")
  end.

Definition JSON_stringify (v : JsValue) : JsValue :=
  match json_serialize v with
  | Some s => JStr s
  | None => JUndefined
  end.

(** *** String.prototype.replace with a string pattern *)

(** [strip_prefix p s] is what follows [p] when [s] starts with [p]. *)
Fixpoint strip_prefix (p s : string) : option string :=
  match p with
  | EmptyString => Some s
  | String a p' =>
      match s with
      | EmptyString => None
      | String b s' => if Ascii.eqb a b then strip_prefix p' s' else None
      end
  end.

(** [split_first p s] cuts [s] around the first occurrence of [p]. *)
Fixpoint split_first (p s : string) : option (string * string) :=
  match strip_prefix p s with
  | Some rest => Some (EmptyString, rest)
  | None =>
      match s with
      | EmptyString => None
      | String c s' =>
          match split_first p s' with
          | Some (before, after) => Some (String c before, after)
          | None => None
          end
      end
  end.

(** GetSubstitution for a pattern without capture groups: in the
    replacement text [$$] stands for a dollar sign, [$&] for the matched
    text, [$`] for the text before the match and [$'] for the text after
    it; any other character stands for itself. *)
Fixpoint GetSubstitution (matched before after r : string) : string :=
  match r with
  | EmptyString => EmptyString
  | String c r1 =>
      if Ascii.eqb c "$"%char then
        match r1 with
        | EmptyString => String c EmptyString
        | String d r2 =>
            if Ascii.eqb d "$"%char then
              String "$"%char (GetSubstitution matched before after r2)
            else if Ascii.eqb d "&"%char then
              matched +:+ GetSubstitution matched before after r2
            else if Ascii.eqb d "`"%char then
              before +:+ GetSubstitution matched before after r2
            else if Ascii.eqb d "'"%char then
              after +:+ GetSubstitution matched before after r2
            else String c (GetSubstitution matched before after r1)
        end
      else String c (GetSubstitution matched before after r1)
  end.

(** [s.replace(pattern, replaceValue)] for a string [pattern]: only the
    first occurrence is replaced, by the expansion of
    ToString([replaceValue]). *)
Definition String_replace (s pattern : string) (replaceValue : JsValue) : string :=
  match split_first pattern s with
  | None => s
  | Some (before, after) =>
      before
      +:+ GetSubstitution pattern before after (ToString replaceValue)
      +:+ after
  end.

(** A replacement text without a dollar sign has no replacement pattern. *)
Fixpoint no_dollar (r : string) : bool :=
  match r with
  | EmptyString => true
  | String c r1 => negb (Ascii.eqb c "$"%char) && no_dollar r1
  end.

(** [s.toLowerCase()] on header names, which are ASCII. *)
Definition lower_char (c : ascii) : ascii :=
  if in_range 65 90 c then ascii_of_N (N_of_ascii c + 32) else c.

Fixpoint toLowerCase (s : string) : string :=
  match s with
  | EmptyString => EmptyString
  | String c r => String (lower_char c) (toLowerCase r)
  end.

(** ** II. The objects of a call *)

(** *** A JavaScript [Map] with string keys

    Entries are kept in insertion order; setting a key that is present
    replaces its value in place. *)
Fixpoint Map_get {V : Type} (m : list (string * V)) (k : string) : option V :=
  match m with
  | [] => None
  | (k', v) :: r => if decide (k' = k) then Some v else Map_get r k
  end.

Fixpoint Map_set {V : Type} (m : list (string * V)) (k : string) (v : V)
  : list (string * V) :=
  match m with
  | [] => [(k, v)]
  | (k', v') :: r =>
      if decide (k' = k) then (k, v) :: r else (k', v') :: Map_set r k v
  end.

Definition Map_has {V : Type} (m : list (string * V)) (k : string) : bool :=
  match Map_get m k with
  | Some _ => true
  | None => false
  end.

Fixpoint Map_delete {V : Type} (m : list (string * V)) (k : string)
  : list (string * V) :=
  match m with
  | [] => []
  | (k', v) :: r =>
      if decide (k' = k) then Map_delete r k else (k', v) :: Map_delete r k
  end.

(** *** [Headers] of [@angular/http], imported as [AngularHeaders]

    The class is a collaborator of the source, not part of it; it is
    modelled after its implementation: header names are case-insensitive,
    [_headers] maps the lower-cased name to the list of values held under
    it, [_normalizedNames] maps it to the spelling first seen. *)
Record AngularHeaders : Type := mkHeaders {
  _headers : list (string * list JsValue);
  _normalizedNames : list (string * string)
}.

Definition Headers_empty : AngularHeaders :=
  {| _headers := []; _normalizedNames := [] |}.

Definition Headers_mayBeSetNormalizedName (h : AngularHeaders) (name : string) : AngularHeaders :=
  let lcName := toLowerCase name in
  if Map_has (_normalizedNames h) lcName then h
  else {| _headers := _headers h;
          _normalizedNames := Map_set (_normalizedNames h) lcName name |}.

(** [set(name, value)]: sets or overrides the values of [name].  An array
    is stored joined by commas, and an empty array stores nothing. *)
Definition Headers_set (h : AngularHeaders) (name : string) (value : JsValue) : AngularHeaders :=
  let stored :=
    match value with
    | JArr [] => h
    | JArr (_ :: _) =>
        {| _headers := Map_set (_headers h) (toLowerCase name)
                         [JStr (ToString value)];
           _normalizedNames := _normalizedNames h |}
    | _ =>
        {| _headers := Map_set (_headers h) (toLowerCase name) [value];
           _normalizedNames := _normalizedNames h |}
    end in
  Headers_mayBeSetNormalizedName stored name.

(** [getAll(name)]: [None] stands for [null]. *)
Definition Headers_getAll (h : AngularHeaders) (name : string) : option (list JsValue) :=
  Map_get (_headers h) (toLowerCase name).

(** [append(name, value)]: adds [value] to the values already held under
    [name]; a name that holds none yet is [set]. *)
Definition Headers_append (h : AngularHeaders) (name : string) (value : JsValue) : AngularHeaders :=
  match Headers_getAll h name with
  | None => Headers_set h name value
  | Some values =>
      {| _headers := Map_set (_headers h) (toLowerCase name) (values ++ [value])%list;
         _normalizedNames := _normalizedNames h |}
  end.

Definition Headers_delete (h : AngularHeaders) (name : string) : AngularHeaders :=
  {| _headers := Map_delete (_headers h) (toLowerCase name);
     _normalizedNames := Map_delete (_normalizedNames h) (toLowerCase name) |}.

(** [get(name)]: the first value held under [name], or [null]. *)
Definition Headers_get (h : AngularHeaders) (name : string) : JsValue :=
  match Headers_getAll h name with
  | Some (v :: _) => v
  | _ => JNull
  end.

Definition Headers_has (h : AngularHeaders) (name : string) : bool :=
  Map_has (_headers h) (toLowerCase name).

Definition Headers_keys (h : AngularHeaders) : list string :=
  map snd (_normalizedNames h).

(** [new Headers(init)] for a plain object (or [null]): every property is
    deleted and then appended, value by value when it is an array. *)
Definition Headers_init_property (h : AngularHeaders) (property : string * JsValue)
  : AngularHeaders :=
  let name := property.1 in
  let values := match property.2 with JArr l => l | v => [v] end in
  fold_left (λ h' value, Headers_append h' name value)
    values (Headers_delete h name).

Definition Headers_init (init : option (list (string * JsValue))) : AngularHeaders :=
  match init with
  | None => Headers_empty
  | Some props => fold_left Headers_init_property props Headers_empty
  end.

(** *** The global [URLSearchParams]

    An ordered list of name-value pairs.  [set] overwrites the first pair
    of that name and drops the others, or adds a pair at the end. *)
Fixpoint URLSearchParams_set (q : list (string * string)) (name value : string)
  : list (string * string) :=
  match q with
  | [] => [(name, value)]
  | (n, v) :: r =>
      if decide (n = name) then (name, value) :: Map_delete r name
      else (n, v) :: URLSearchParams_set r name value
  end.

Definition URLSearchParams_get (q : list (string * string)) (name : string)
  : option string := Map_get q name.

Definition URLSearchParams_has (q : list (string * string)) (name : string)
  : bool := Map_has q name.

(** *** The store *)

(** [RequestMethod] of [@angular/http]. *)
Inductive RequestMethod : Type :=
| Get | Post | Put | Delete | Options | Head | Patch.

(** Locations are positions in the store. *)
Abbreviation loc := nat (only parsing).

(** The option literal of lines 244-250. [headers] and [search] are
    references to the objects built before. *)
Record RequestArgs : Type := mkRequestArgs {
  method : RequestMethod;
  url : string;
  headers : loc;
  body : JsValue;
  search : loc
}.

Inductive Obj : Type :=
| OHeaders (h : AngularHeaders)
| OURLSearchParams (q : list (string * string))
| ORequestOptions (o : RequestArgs)
| ORequest (o : RequestArgs).

Inductive JsError : Type :=
| TypeError
| Thrown (v : JsValue).

Inductive Result (A : Type) : Type :=
| Ok (a : A)
| Throw (e : JsError).
Arguments Ok {A} a.
Arguments Throw {A} e.

(** Computations over the store.  Every [new] takes the next free
    location; nothing is ever freed. *)
Definition St (A : Type) : Type := list Obj → Result (A * list Obj).

#[global] Instance St_ret : MRet St := λ A a s, Ok (a, s).
#[global] Instance St_bind : MBind St := λ A B f m s,
  match m s with
  | Ok (a, s') => f a s'
  | Throw e => Throw e
  end.

Definition throw {A : Type} (e : JsError) : St A := λ _, Throw e.

Definition alloc (o : Obj) : St loc := λ s, Ok (length s, (s ++ [o])%list).

Definition new_URLSearchParams : St loc := alloc (OURLSearchParams []).

Definition new_Headers (init : option (list (string * JsValue))) : St loc :=
  alloc (OHeaders (Headers_init init)).

Definition new_RequestOptions (o : RequestArgs) : St loc :=
  alloc (ORequestOptions o).

(** [new Request(options)]: the request takes over the fields of the
    options object.  The cells [ORequestOptions] and [ORequest] stand for
    what the method body hands to the two constructors; what the
    constructors of [@angular/http] make of a body, of the headers and of
    the search object inside is not part of this development. *)
Definition new_Request (options : loc) : St loc := λ s,
  match s !! options with
  | Some (ORequestOptions o) => alloc (ORequest o) s
  | _ => Throw TypeError
  end.

(** The fields of the request at [req], as in [req.headers]. *)
Definition fields (req : loc) : St RequestArgs := λ s,
  match s !! req with
  | Some (ORequest o) => Ok (o, s)
  | _ => Throw TypeError
  end.

(** [headers.append(name, value)] on the object at [l] *)
Definition headers_append (l : loc) (name : string) (value : JsValue) : St unit := λ s,
  match s !! l with
  | Some (OHeaders h) => Ok (tt, <[l := OHeaders (Headers_append h name value)]> s)
  | _ => Throw TypeError
  end.

(** [search.set(name, value)] on the object at [l] *)
Definition search_set (l : loc) (name value : string) : St unit := λ s,
  match s !! l with
  | Some (OURLSearchParams q) =>
      Ok (tt, <[l := OURLSearchParams (URLSearchParams_set q name value)]> s)
  | _ => Throw TypeError
  end.

(** [for (const k in xs) { if (xs.hasOwnProperty(k)) ... }] and
    [xs.forEach(...)]: the elements in index order. *)
Fixpoint forEach {A : Type} (xs : list A) (f : A → St unit) : St unit :=
  match xs with
  | [] => mret tt
  | x :: r => f x ;; forEach r f
  end.

(** ** III. The client class and the decorators *)

(** The response pipeline.  [Http_request req] is the observable that
    [this.http.request(req)] returns: nothing is sent before it is
    subscribed to. *)
Inductive Projection : Type :=
| res_json                          (* [res => res.json()] *)
| projection (name : string).

Inductive Observable : Type :=
| Http_request (req : loc)
| Observable_map (project : Projection) (source : Observable).

(** The calls a method body makes to its collaborators, in the order it
    makes them. *)
Inductive Call : Type :=
| call_requestInterceptor (req : loc)
| call_http_request (req : loc)
| call_map (project : Projection)
| call_responseInterceptor (res : Observable).

(** A method body: a computation over the store that also records the
    collaborator calls it makes.  The record is kept when a call throws. *)
Definition Proc (A : Type) : Type := list Obj → list Call * Result (A * list Obj).

#[global] Instance Proc_ret : MRet Proc := λ A a s, ([], Ok (a, s)).
#[global] Instance Proc_bind : MBind Proc := λ A B f m s,
  match m s with
  | (t, Ok (a, s')) => let '(t', r) := f a s' in ((t ++ t')%list, r)
  | (t, Throw e) => (t, Throw e)
  end.

Definition lift {A : Type} (m : St A) : Proc A := λ s, ([], m s).

Definition calling {A : Type} (c : Call) (m : St A) : Proc A := λ s, ([c], m s).

(** [class RESTClient]: the four overridable members.  The injected
    [http] is not a field: its one method is the constructor
    [Http_request] above. *)
Record RESTClient : Type := mkRESTClient {
  getBaseUrl : option string;
  getDefaultHeaders : option (list (string * JsValue));
  requestInterceptor : loc → St unit;
  responseInterceptor : Observable → St Observable
}.

(** The class as declared at lines 49-83. *)
Definition RESTClient_class : RESTClient :=
  {| getBaseUrl := None;
     getDefaultHeaders := None;
     requestInterceptor := λ req, mret tt;
     responseInterceptor := λ res, mret res |}.

Definition BaseUrl (url : string) (Target : RESTClient) : RESTClient :=
  {| getBaseUrl := Some url;
     getDefaultHeaders := getDefaultHeaders Target;
     requestInterceptor := requestInterceptor Target;
     responseInterceptor := responseInterceptor Target |}.

Definition DefaultHeaders (headers : list (string * JsValue)) (Target : RESTClient)
  : RESTClient :=
  {| getBaseUrl := getBaseUrl Target;
     getDefaultHeaders := Some headers;
     requestInterceptor := requestInterceptor Target;
     responseInterceptor := responseInterceptor Target |}.

(** *** Parameter decorators *)

Record ParamObj : Type := mkParamObj {
  key : string;
  parameterIndex : nat
}.

Definition metadataKey (propertyKey paramName : string) : string :=
  propertyKey +:+ "_" +:+ paramName +:+ "_parameters".

(** [paramBuilder(paramName)(key)(target, propertyKey, parameterIndex)].
    [target] is the prototype, seen through its metadata properties: a
    property is either missing or holds an array of parameter objects. *)
Definition paramBuilder (paramName key : string)
    (target : gmap string (list ParamObj)) (propertyKey : string)
    (parameterIndex : nat) : gmap string (list ParamObj) :=
  let metadataKey := metadataKey propertyKey paramName in
  let paramObj := {| key := key; parameterIndex := parameterIndex |} in
  match target !! metadataKey with
  | Some params => <[metadataKey := (params ++ [paramObj])%list]> target
  | None => <[metadataKey := [paramObj]]> target
  end.

Definition Path := paramBuilder "Path".
Definition Query := paramBuilder "Query".
Definition Body := paramBuilder "Body" "Body".
Definition Header := paramBuilder "Header".

(** *** Method decorators *)

(** The property descriptor of a decorated method, with the two fields
    that [@Headers] and [@Produces] put on it. *)
Module descriptor.

Record t : Type := mk {
  headers : option (list (string * JsValue));
  isJSON : option bool
}.

(** The descriptor of a method before any decorator has run. *)
Definition initial : t := {| headers := None; isJSON := None |}.

End descriptor.

Inductive MediaType : Type := JSON.

Definition Headers (headersDef : list (string * JsValue)) (d : descriptor.t)
  : descriptor.t :=
  {| descriptor.headers := Some headersDef;
     descriptor.isJSON := descriptor.isJSON d |}.

Definition Produces (producesDef : MediaType) (d : descriptor.t) : descriptor.t :=
  {| descriptor.headers := descriptor.headers d;
     descriptor.isJSON := Some (match producesDef with JSON => true end) |}.

(** [this.getBaseUrl() + resUrl]: [+] with a string operand concatenates
    the string forms, and the string form of [null] is [null]. *)
Definition plus (base : option string) (resUrl : string) : string :=
  match base with
  | Some b => b +:+ resUrl
  | None => "null" +:+ resUrl
  end.

(** Lines 193-252 of the method body: from the arguments of the call to
    the [Request] object. *)
Definition compileRequest (method : RequestMethod) (url : string)
    (pPath pQuery pBody pHeader : option (list ParamObj))
    (descriptor : descriptor.t) (this : RESTClient) (args : list JsValue)
  : St loc :=
  (* Body *)
  body ← match pBody with
         | None => mret JNull
         | Some [] => throw TypeError
         | Some (p :: _) => mret (JSON_stringify (arg args (parameterIndex p)))
         end;
  (* Path *)
  let resUrl :=
    match pPath with
    | None => url
    | Some ps =>
        fold_left
          (λ resUrl p,
             String_replace resUrl ("{" +:+ key p +:+ "}")
               (arg args (parameterIndex p)))
          ps url
    end in
  (* Query *)
  search ← new_URLSearchParams;
  match pQuery with
  | None => mret tt
  | Some ps =>
      forEach (List.filter (λ p, ToBoolean (arg args (parameterIndex p))) ps)
        (λ p,
           let key := key p in
           let value := arg args (parameterIndex p) in
           let value :=
             if instanceof_Object value then JSON_stringify value else value in
           search_set search (encodeURIComponent (JStr key)) (encodeURIComponent value))
  end;;
  (* Headers *)
  headers ← new_Headers (getDefaultHeaders this);
  forEach (default [] (descriptor.headers descriptor))
    (λ kv, headers_append headers kv.1 kv.2);;
  match pHeader with
  | None => mret tt
  | Some ps =>
      forEach ps (λ p, headers_append headers (key p) (arg args (parameterIndex p)))
  end;;
  (* Request options *)
  options ← new_RequestOptions
    {| method := method;
       url := plus (getBaseUrl this) resUrl;
       headers := headers;
       body := body;
       search := search |};
  new_Request options.

(** [methodBuilder(method)(url)(target, propertyKey, descriptor)]: the
    function stored in [descriptor.value].  The parameter lists are read
    from [target] when the decorator runs; [descriptor] is read when the
    method is called. *)
Definition methodBuilder (method : RequestMethod) (url : string)
    (target : gmap string (list ParamObj)) (propertyKey : string)
    (descriptor : descriptor.t)
  : RESTClient → list JsValue → Proc Observable :=
  let pPath := target !! metadataKey propertyKey "Path" in
  let pQuery := target !! metadataKey propertyKey "Query" in
  let pBody := target !! metadataKey propertyKey "Body" in
  let pHeader := target !! metadataKey propertyKey "Header" in
  λ this args,
    req ← lift (compileRequest method url pPath pQuery pBody pHeader
                  descriptor this args);
    (* intercept the request *)
    calling (call_requestInterceptor req) (requestInterceptor this req);;
    (* make the request *)
    observable ← calling (call_http_request req) (mret (Http_request req));
    (* transform the observable in accordance to the @Produces decorator *)
    observable ←
      match descriptor.isJSON descriptor with
      | Some true =>
          calling (call_map res_json) (mret (Observable_map res_json observable))
      | _ => mret observable
      end;
    (* intercept the response *)
    calling (call_responseInterceptor observable)
      (responseInterceptor this observable).

Definition GET := methodBuilder Get.
Definition POST := methodBuilder Post.
Definition PUT := methodBuilder Put.
Definition DELETE := methodBuilder Delete.
Definition HEAD := methodBuilder Head.

(** *** Reading a compiled request *)

(** What a request holds, with the two referenced objects read out. *)
Record RequestDescriptor : Type := mkRequestDescriptor {
  rd_method : RequestMethod;
  rd_url : string;
  rd_headers : AngularHeaders;
  rd_body : JsValue;
  rd_search : list (string * string)
}.

Definition describe (s : list Obj) (req : loc) : option RequestDescriptor :=
  match s !! req with
  | Some (ORequest o) =>
      match s !! headers o, s !! search o with
      | Some (OHeaders h), Some (OURLSearchParams q) =>
          Some {| rd_method := method o; rd_url := url o; rd_headers := h;
                  rd_body := body o; rd_search := q |}
      | _, _ => None
      end
  | _ => None
  end.

(** The request a call compiles, started in store [s]. *)
Definition compiled (method : RequestMethod) (url : string)
    (target : gmap string (list ParamObj)) (propertyKey : string)
    (descriptor : descriptor.t) (this : RESTClient) (args : list JsValue)
    (s : list Obj) : option RequestDescriptor :=
  match compileRequest method url
          (target !! metadataKey propertyKey "Path")
          (target !! metadataKey propertyKey "Query")
          (target !! metadataKey propertyKey "Body")
          (target !! metadataKey propertyKey "Header")
          descriptor this args s with
  | Ok (req, s') => describe s' req
  | Throw _ => None
  end.

(** *** The contents of a compiled request, as folds

    What the loops of [compileRequest] leave in the objects they fill.
    [compileRequest_run] below relates these to the stateful code. *)

Definition body_of (pBody : option (list ParamObj)) (args : list JsValue) : JsValue :=
  match pBody with
  | Some (p :: _) => JSON_stringify (arg args (parameterIndex p))
  | _ => JNull
  end.

Definition replace_path (args : list JsValue) (resUrl : string) (p : ParamObj) : string :=
  String_replace resUrl ("{" +:+ key p +:+ "}") (arg args (parameterIndex p)).

Definition resUrl_of (url : string) (pPath : option (list ParamObj))
    (args : list JsValue) : string :=
  fold_left (replace_path args) (default [] pPath) url.

Definition query_value (value : JsValue) : JsValue :=
  if instanceof_Object value then JSON_stringify value else value.

Definition set_query (args : list JsValue) (q : list (string * string))
    (p : ParamObj) : list (string * string) :=
  URLSearchParams_set q (encodeURIComponent (JStr (key p)))
    (encodeURIComponent (query_value (arg args (parameterIndex p)))).

Definition search_of (pQuery : option (list ParamObj)) (args : list JsValue)
  : list (string * string) :=
  fold_left (set_query args)
    (List.filter (λ p, ToBoolean (arg args (parameterIndex p))) (default [] pQuery))
    [].

(** The name under which a Query binding is put in the query. *)
Definition query_name (p : ParamObj) : string := encodeURIComponent (JStr (key p)).

Definition append_static (h : AngularHeaders) (kv : string * JsValue) : AngularHeaders :=
  Headers_append h kv.1 kv.2.

Definition append_param (args : list JsValue) (h : AngularHeaders) (p : ParamObj)
  : AngularHeaders :=
  Headers_append h (key p) (arg args (parameterIndex p)).

Definition headers_of (defaults statics : option (list (string * JsValue)))
    (pHeader : option (list ParamObj)) (args : list JsValue) : AngularHeaders :=
  fold_left (append_param args) (default [] pHeader)
    (fold_left append_static (default [] statics) (Headers_init defaults)).

(** The locations a request owns: itself and the two objects it refers to. *)
Definition owned (s : list Obj) (req : loc) : list loc :=
  match s !! req with
  | Some (ORequest o) => [req; headers o; search o]
  | _ => []
  end.

(** The values a layer of headers holds under a name, in the order of the
    layer; names are compared without regard to case. *)
Definition same_name (a b : string) : bool :=
  bool_decide (toLowerCase a = toLowerCase b).

Definition static_values (name : string) (props : list (string * JsValue))
  : list JsValue :=
  map snd (List.filter (λ kv, same_name kv.1 name) props).

Definition param_values (name : string) (args : list JsValue)
    (ps : list ParamObj) : list JsValue :=
  map (λ p, arg args (parameterIndex p))
    (List.filter (λ p, same_name (key p) name) ps).

(** The values a header object holds under a name. *)
Definition values_of (h : AngularHeaders) (name : string) : list JsValue :=
  default [] (Headers_getAll h name).

(** The constructor deletes a name before it appends its value, so of the
    default headers only the last one of a name counts. *)
Definition default_values (name : string)
    (defaults : option (list (string * JsValue))) : list JsValue :=
  match last (static_values name (default [] defaults)) with
  | Some v => [v]
  | None => []
  end.

(** *** Runs of parameter decorators *)

(** A run of parameter decorators of one role on one method: each
    element is the key and the parameter index of one decorator, in the
    order the decorators run. *)
Definition register (paramName propertyKey : string)
    (target : gmap string (list ParamObj)) (regs : list (string * nat))
  : gmap string (list ParamObj) :=
  fold_left (λ t kp, paramBuilder paramName kp.1 t propertyKey kp.2) regs target.

(** The four roles under which the source exports [paramBuilder], and a
    parameter decorator as it is written on a parameter. *)
Inductive Role : Type := role_Path | role_Query | role_Body | role_Header.

Definition paramName (r : Role) : string :=
  match r with
  | role_Path => "Path"
  | role_Query => "Query"
  | role_Body => "Body"
  | role_Header => "Header"
  end.

Record Registration : Type := mkRegistration {
  reg_role : Role;
  reg_key : string;
  reg_propertyKey : string;
  reg_index : nat
}.

Definition decorate (target : gmap string (list ParamObj)) (r : Registration)
  : gmap string (list ParamObj) :=
  paramBuilder (paramName (reg_role r)) (reg_key r) target
    (reg_propertyKey r) (reg_index r).

(** Does a registration belong to the list of this method and role? *)
Definition on_list (propertyKey : string) (role : Role) (r : Registration) : bool :=
  bool_decide (reg_propertyKey r = propertyKey ∧ paramName (reg_role r) = paramName role).

(** The prototypes the parameter decorators can produce, starting from a
    class without metadata. *)
Inductive decorated : gmap string (list ParamObj) → Prop :=
| decorated_class : decorated ∅
| decorated_param paramName k target propertyKey i :
    decorated target →
    decorated (paramBuilder paramName k target propertyKey i).

(** The parameter list of a method and a role; a missing property reads
    as no parameters. *)
Definition params (target : gmap string (list ParamObj))
    (propertyKey paramName : string) : list ParamObj :=
  default [] (target !! metadataKey propertyKey paramName).

(** *** A sample service

    [getUser(@Path("id") id, @Query("active") active)] under
    [@GET("/users/{id}")] and [@Produces(MediaType.JSON)], and
    [ping(@Header("A") a)] under [@GET("/ping")] with
    [@Headers({A: "2", B: "3"})]. *)
Definition UserService : gmap string (list ParamObj) :=
  Header "A" (Path "id" (Query "active" ∅ "getUser" 1) "getUser" 0) "ping" 0.

Definition ping_descriptor : descriptor.t :=
  Headers [("A", JStr "2"); ("B", JStr "3")] descriptor.initial.

(** The client of the sample service and its operation [getUser], with
    [@Produces(MediaType.JSON)]; the store after a first call
    [getUser("42", true)] in the empty store. *)
Definition UserClient : RESTClient := BaseUrl "https://api.test" RESTClient_class.

Definition getUser_descriptor : descriptor.t := Produces JSON descriptor.initial.

Definition getUser_compile (s : list Obj) : Result (loc * list Obj) :=
  compileRequest Get "/users/{id}"
    (UserService !! metadataKey "getUser" "Path")
    (UserService !! metadataKey "getUser" "Query")
    (UserService !! metadataKey "getUser" "Body")
    (UserService !! metadataKey "getUser" "Header")
    getUser_descriptor UserClient [JStr "42"; JBool true] s.

Definition getUser_store : list Obj :=
  Eval vm_compute in
    match getUser_compile [] with
    | Ok (_, s) => s
    | Throw _ => []
    end.

(** A subclass that overrides both interceptors: the request interceptor
    adds an [Authorization] header to the request it is given, the
    response interceptor maps the response through a logging step. *)
Definition AuthClient : RESTClient :=
  {| getBaseUrl := Some "https://api.test";
     getDefaultHeaders := None;
     requestInterceptor := λ req,
       o ← fields req; headers_append (headers o) "Authorization" (JStr "token");
     responseInterceptor := λ res,
       mret (Observable_map (projection "log") res) |}.

Definition AuthClient_store : list Obj :=
  Eval vm_compute in
    match GET "/users/{id}" UserService "getUser" getUser_descriptor AuthClient
            [JStr "42"; JBool true] [] with
    | (_, Ok (_, s)) => s
    | (_, Throw _) => []
    end.

(** A method with two Query parameters of the same key:
    [find(@Query("q") a, @Query("q") b)].  The decorator of the last
    parameter runs first, so the list is [b] (index 1), then [a]
    (index 0). *)
Definition SearchService : gmap string (list ParamObj) :=
  Query "q" (Query "q" ∅ "find" 1) "find" 0.

(** A method with two body parameters: [createUser(@Body a, @Body b)].
    The decorator of the last parameter runs first, so the list is [b]
    (index 1), then [a] (index 0). *)
Definition CreateService : gmap string (list ParamObj) :=
  Body (Body ∅ "createUser" 1) "createUser" 0.

(** A method with a Query key that needs encoding:
    [search(@Query("a b") filter, @Query("page") page)]. *)
Definition FilterService : gmap string (list ParamObj) :=
  Query "a b" (Query "page" ∅ "search" 1) "search" 0.

(** *** Notions for the further properties *)

(** The placeholder of a Path binding, and what it is for a text to occur
    in a URL. *)
Definition placeholder (p : ParamObj) : string := "{" +:+ key p +:+ "}".

Definition occurs_in (pattern s : string) : Prop :=
  ∃ before after, s = before +:+ pattern +:+ after.

(** The characters of a percent-encoded text: the unreserved ones and the
    percent sign. *)
Definition uri_safe_char (c : ascii) : bool :=
  uri_unreserved c || Ascii.eqb c "%"%char.

Fixpoint uri_safe (s : string) : bool :=
  match s with
  | EmptyString => true
  | String c r => uri_safe_char c && uri_safe r
  end.

(** A client that has the interceptors of [RESTClient] itself. *)
Definition inherits_interceptors (this : RESTClient) : Prop :=
  requestInterceptor this = requestInterceptor RESTClient_class
  ∧ responseInterceptor this = responseInterceptor RESTClient_class.

(** A request interceptor that adds one header to the request it is
    given: [req.headers.append(name, value)]. *)
Definition add_header (name : string) (value : JsValue) (req : loc) : St unit :=
  o ← fields req; headers_append (headers o) name value.

(** A client whose request interceptor adds a token, and one whose request
    interceptor refuses every request. *)
Definition TokenClient : RESTClient :=
  {| getBaseUrl := Some "https://api.test";
     getDefaultHeaders := None;
     requestInterceptor := add_header "Authorization" (JStr "token");
     responseInterceptor := responseInterceptor RESTClient_class |}.

Definition RefusingClient : RESTClient :=
  {| getBaseUrl := Some "https://api.test";
     getDefaultHeaders := None;
     requestInterceptor := λ _, throw (Thrown (JStr "offline"));
     responseInterceptor := responseInterceptor RESTClient_class |}.

(** The request that a call handed to [Http.request], read in the store
    the call left. *)
Definition dispatched (run : list Call * Result (Observable * list Obj))
  : option RequestDescriptor :=
  match run with
  | (t, Ok (_, s)) =>
      match omap (λ c, match c with
                       | call_http_request req => Some req
                       | _ => None
                       end) t with
      | req :: _ => describe s req
      | [] => None
      end
  | (_, Throw _) => None
  end.

(** The stages of a call on request [req], in full. *)
Definition stages (d : descriptor.t) (req : loc) (res : Observable) : list Call :=
  ([call_requestInterceptor req; call_http_request req]
   ++ match descriptor.isJSON d with
      | Some true => [call_map res_json]
      | _ => []
      end
   ++ [call_responseInterceptor res])%list.

(** *** Arguments with identity

    An object or array that is passed to a call is a reference to an
    object of the caller, which the caller can change later.  The method
    body makes a text of the arguments bound to the Body, to a Path or to
    a Query; an argument bound to a Header it hands to [headers.append] as
    it is (line 238).  This layer follows the identity of the arguments
    through the Header bindings: a slot of the headers holds a value or a
    reference into the caller's heap, and [read_headers] is what the
    headers read as in a given state of that heap.  The values written in
    the decorators are held by value. *)
Inductive Held : Type :=
| by_value (v : JsValue)
| by_reference (l : loc).

(** What an argument holds now; the heap maps a location to the present
    content of the caller's object. *)
Definition content (heap : list JsValue) (x : Held) : JsValue :=
  match x with
  | by_value v => v
  | by_reference l => default JUndefined (heap !! l)
  end.

Definition arg_held (args : list Held) (i : nat) : Held :=
  default (by_value JUndefined) (args !! i).

(** A primitive: a value that is not an object or array. *)
Definition primitive (x : Held) : bool :=
  match x with
  | by_value v => negb (instanceof_Object v)
  | by_reference _ => false
  end.

Record HeldHeaders : Type := mkHeldHeaders {
  held_headers : list (string * list Held);
  held_normalizedNames : list (string * string)
}.

Definition HeldHeaders_mayBeSetNormalizedName (h : HeldHeaders) (name : string)
  : HeldHeaders :=
  let lcName := toLowerCase name in
  if Map_has (held_normalizedNames h) lcName then h
  else {| held_headers := held_headers h;
          held_normalizedNames := Map_set (held_normalizedNames h) lcName name |}.

(** [set] and [append] as in [Headers_set] and [Headers_append]: a
    non-empty array is stored as the text of its join, which is a new
    value; anything else is stored as it is, a reference staying a
    reference. *)
Definition HeldHeaders_set (heap : list JsValue) (h : HeldHeaders) (name : string)
    (value : Held) : HeldHeaders :=
  let stored :=
    match content heap value with
    | JArr [] => h
    | JArr (_ :: _) =>
        {| held_headers := Map_set (held_headers h) (toLowerCase name)
                             [by_value (JStr (ToString (content heap value)))];
           held_normalizedNames := held_normalizedNames h |}
    | _ =>
        {| held_headers := Map_set (held_headers h) (toLowerCase name) [value];
           held_normalizedNames := held_normalizedNames h |}
    end in
  HeldHeaders_mayBeSetNormalizedName stored name.

Definition HeldHeaders_append (heap : list JsValue) (h : HeldHeaders)
    (name : string) (value : Held) : HeldHeaders :=
  match Map_get (held_headers h) (toLowerCase name) with
  | None => HeldHeaders_set heap h name value
  | Some values =>
      {| held_headers := Map_set (held_headers h) (toLowerCase name)
                           (values ++ [value])%list;
         held_normalizedNames := held_normalizedNames h |}
  end.

(** Headers whose every slot is held by value, and what held headers read
    as. *)
Definition hold (h : AngularHeaders) : HeldHeaders :=
  {| held_headers := map (λ kv, (kv.1, map by_value kv.2)) (_headers h);
     held_normalizedNames := _normalizedNames h |}.

Definition read_headers (heap : list JsValue) (h : HeldHeaders) : AngularHeaders :=
  {| _headers := map (λ kv, (kv.1, map (content heap) kv.2)) (held_headers h);
     _normalizedNames := held_normalizedNames h |}.

(** The caller's objects that the headers refer to. *)
Definition references (h : HeldHeaders) : list loc :=
  flat_map (λ kv : string * list Held,
              omap (λ x, match x with
                         | by_reference l => Some l
                         | by_value _ => None
                         end) kv.2)
    (held_headers h).

(** The headers of a compiled request (lines 225-241), with the arguments
    of the Header bindings held as they are passed. *)
Definition headers_held (heap : list JsValue)
    (defaults statics : option (list (string * JsValue)))
    (pHeader : option (list ParamObj)) (args : list Held) : HeldHeaders :=
  fold_left
    (λ h p, HeldHeaders_append heap h (key p) (arg_held args (parameterIndex p)))
    (default [] pHeader)
    (hold (fold_left append_static (default [] statics) (Headers_init defaults))).

(** Headers that hold no object or array. *)
Definition plain (h : AngularHeaders) : Prop :=
  Forall (λ kv : string * list JsValue,
            Forall (λ v, instanceof_Object v = false) kv.2) (_headers h).

(** The store after a first call [ping("4")] in the empty store. *)
Definition ping_store : list Obj :=
  Eval vm_compute in
    match compileRequest Get "/ping"
            (UserService !! metadataKey "ping" "Path")
            (UserService !! metadataKey "ping" "Query")
            (UserService !! metadataKey "ping" "Body")
            (UserService !! metadataKey "ping" "Header")
            ping_descriptor UserClient [JStr "4"] [] with
    | Ok (_, s) => s
    | Throw _ => []
    end.

(** [ping(role)] called with an object of the caller. *)
Definition caller_heap : list JsValue := [JObj [("role", JStr "admin")]].

Definition ping_held : HeldHeaders :=
  headers_held caller_heap (getDefaultHeaders UserClient)
    (descriptor.headers ping_descriptor)
    (UserService !! metadataKey "ping" "Header") [by_reference 0].

(** ** IV. Properties *)

(** *** The store monad *)

Lemma St_bind_Ok {A B : Type} (m : St A) (f : A → St B) s a s' :
  m s = Ok (a, s') → (m ≫= f) s = f a s'.
Proof. intros H. unfold mbind, St_bind. by rewrite H. Qed.

Lemma St_bind_Throw {A B : Type} (m : St A) (f : A → St B) s e :
  m s = Throw e → (m ≫= f) s = Throw e.
Proof. intros H. unfold mbind, St_bind. by rewrite H. Qed.

Lemma alloc_run o s : alloc o s = Ok (length s, (s ++ [o])%list).
Proof. reflexivity. Qed.

Lemma lookup_alloc (s : list Obj) o : (s ++ [o])%list !! length s = Some o.
Proof. by apply list_lookup_middle. Qed.

Lemma insert_alloc (s : list Obj) o o' :
  <[length s := o']> (s ++ [o])%list = (s ++ [o'])%list.
Proof.
  rewrite insert_app_r_alt by lia. by rewrite Nat.sub_diag.
Qed.

Lemma forEach_set {A : Type} (xs : list A) (n v : A → string) l q (s : list Obj) :
  s !! l = Some (OURLSearchParams q) →
  forEach xs (λ p, search_set l (n p) (v p)) s
  = Ok (tt, <[l := OURLSearchParams
                      (fold_left (λ q p, URLSearchParams_set q (n p) (v p)) xs q)]> s).
Proof.
  revert q s. induction xs as [|x xs IH]; intros q s Hl; simpl.
  - by rewrite list_insert_id.
  - erewrite St_bind_Ok; last by (unfold search_set; rewrite Hl).
    rewrite IH with (q := URLSearchParams_set q (n x) (v x)).
    + by rewrite list_insert_insert_eq.
    + apply list_lookup_insert_eq. by eapply lookup_lt_Some.
Qed.

Lemma forEach_append {A : Type} (xs : list A) (n : A → string) (v : A → JsValue)
    l h (s : list Obj) :
  s !! l = Some (OHeaders h) →
  forEach xs (λ p, headers_append l (n p) (v p)) s
  = Ok (tt, <[l := OHeaders
                      (fold_left (λ h p, Headers_append h (n p) (v p)) xs h)]> s).
Proof.
  revert h s. induction xs as [|x xs IH]; intros h s Hl; simpl.
  - by rewrite list_insert_id.
  - erewrite St_bind_Ok; last by (unfold headers_append; rewrite Hl).
    rewrite IH with (h := Headers_append h (n x) (v x)).
    + by rewrite list_insert_insert_eq.
    + apply list_lookup_insert_eq. by eapply lookup_lt_Some.
Qed.

(** *** What [compileRequest] does to the store *)

(** The request compiled in store [s] is the object at [3 + length s];
    the call adds four objects to the store and changes no other. *)
Lemma compileRequest_run method url pPath pQuery pBody pHeader d this args s :
  pBody ≠ Some [] →
  compileRequest method url pPath pQuery pBody pHeader d this args s
  = let o := {| method := method;
                url := plus (getBaseUrl this) (resUrl_of url pPath args);
                headers := 1 + length s;
                body := body_of pBody args;
                search := length s |} in
    Ok (3 + length s,
        (s ++ [OURLSearchParams (search_of pQuery args);
               OHeaders (headers_of (getDefaultHeaders this)
                           (descriptor.headers d) pHeader args);
               ORequestOptions o; ORequest o])%list).
Proof.
  intros HBody. unfold compileRequest.
  (* Body *)
  assert (Hb : (match pBody with
                | None => mret JNull
                | Some [] => throw TypeError
                | Some (p :: _) => mret (JSON_stringify (arg args (parameterIndex p)))
                end : St JsValue) s = Ok (body_of pBody args, s)).
  { destruct pBody as [[|p ps]|]; done. }
  erewrite St_bind_Ok; last exact Hb. clear Hb.
  (* Query *)
  erewrite St_bind_Ok; last apply alloc_run.
  set (s1 := (s ++ [OURLSearchParams []])%list).
  assert (Hq : (match pQuery with
                | None => mret tt
                | Some ps =>
                    forEach
                      (List.filter (λ p, ToBoolean (arg args (parameterIndex p))) ps)
                      (λ p,
                         let key := key p in
                         let value := arg args (parameterIndex p) in
                         let value :=
                           if instanceof_Object value then JSON_stringify value
                           else value in
                         search_set (length s) (encodeURIComponent (JStr key))
                           (encodeURIComponent value))
                end : St unit) s1
               = Ok (tt, (s ++ [OURLSearchParams (search_of pQuery args)])%list)).
  { destruct pQuery as [ps|]; [|done].
    cbv zeta. rewrite forEach_set with (q := []); last apply lookup_alloc.
    unfold s1. by rewrite insert_alloc. }
  erewrite St_bind_Ok; last exact Hq. clear Hq s1.
  set (s2 := (s ++ [OURLSearchParams (search_of pQuery args)])%list).
  (* Headers *)
  erewrite St_bind_Ok; last apply alloc_run.
  assert (Hl2 : length s2 = 1 + length s).
  { unfold s2. rewrite length_app. simpl. lia. }
  erewrite St_bind_Ok; last first.
  { rewrite forEach_append with (h := Headers_init (getDefaultHeaders this));
      last apply lookup_alloc.
    by rewrite insert_alloc. }
  assert (Hh : (match pHeader with
                | None => mret tt
                | Some ps =>
                    forEach ps
                      (λ p, headers_append (length s2) (key p) (arg args (parameterIndex p)))
                end : St unit)
                 (s2 ++ [OHeaders (fold_left
                                     (λ h kv, Headers_append h kv.1 kv.2)
                                     (default [] (descriptor.headers d))
                                     (Headers_init (getDefaultHeaders this)))])%list
               = Ok (tt, (s2 ++ [OHeaders (headers_of (getDefaultHeaders this)
                                              (descriptor.headers d) pHeader args)])%list)).
  { destruct pHeader as [ps|]; [|done].
    erewrite forEach_append; last apply lookup_alloc.
    by rewrite insert_alloc. }
  erewrite St_bind_Ok; last exact Hh. clear Hh.
  set (s3 := (s2 ++ [OHeaders _])%list).
  assert (Hl3 : length s3 = 2 + length s).
  { unfold s3. rewrite length_app, Hl2. simpl. lia. }
  (* Request options *)
  erewrite St_bind_Ok; last apply alloc_run.
  unfold new_Request. rewrite lookup_alloc, alloc_run.
  cbv zeta. rewrite length_app, Hl3, Hl2. simpl length.
  replace (2 + length s + 1) with (3 + length s) by lia.
  unfold s3, s2. rewrite <- !app_assoc. by destruct pPath.
Qed.

Lemma compileRequest_throw method url pPath pQuery pHeader d this args s :
  compileRequest method url pPath pQuery (Some []) pHeader d this args s
  = Throw TypeError.
Proof. reflexivity. Qed.

Lemma lookup_added (s added : list Obj) i :
  (s ++ added)%list !! (i + length s) = added !! i.
Proof.
  rewrite lookup_app_r by lia. f_equal. lia.
Qed.

Lemma describe_added s q h o' o :
  headers o = 1 + length s →
  search o = length s →
  describe (s ++ [OURLSearchParams q; OHeaders h; ORequestOptions o'; ORequest o])%list
    (3 + length s)
  = Some {| rd_method := method o; rd_url := url o; rd_headers := h;
            rd_body := body o; rd_search := q |}.
Proof.
  intros Hh Hs. unfold describe.
  rewrite (lookup_added s _ 3). simpl. rewrite Hh, Hs.
  rewrite (lookup_added s _ 1), (lookup_added s _ 0). reflexivity.
Qed.

(** The request descriptor of a call, in closed form. *)
Lemma compiled_run method url target propertyKey d this args s :
  target !! metadataKey propertyKey "Body" ≠ Some [] →
  compiled method url target propertyKey d this args s
  = Some {| rd_method := method;
            rd_url := plus (getBaseUrl this)
                        (resUrl_of url (target !! metadataKey propertyKey "Path") args);
            rd_headers := headers_of (getDefaultHeaders this) (descriptor.headers d)
                            (target !! metadataKey propertyKey "Header") args;
            rd_body := body_of (target !! metadataKey propertyKey "Body") args;
            rd_search := search_of (target !! metadataKey propertyKey "Query") args |}.
Proof.
  intros HBody. unfold compiled.
  rewrite compileRequest_run by done. cbv beta iota zeta.
  by rewrite describe_added.
Qed.

(** A store that grows keeps the requests it describes. *)
Lemma describe_app s more req rd :
  describe s req = Some rd → describe (s ++ more)%list req = Some rd.
Proof.
  unfold describe. intros H.
  destruct (s !! req) as [[| | |o]|] eqn:Hreq; try done.
  rewrite (lookup_app_l_Some _ _ _ _ Hreq).
  destruct (s !! headers o) as [[h| | |]|] eqn:Hh; try done.
  destruct (s !! search o) as [[|q| |]|] eqn:Hs; try done.
  by rewrite (lookup_app_l_Some _ _ _ _ Hh), (lookup_app_l_Some _ _ _ _ Hs).
Qed.

(** Writing to a location a request does not own leaves it as it was. *)
Lemma describe_insert_other s req rd l ob :
  describe s req = Some rd →
  l ∉ owned s req →
  describe (<[l := ob]> s) req = Some rd.
Proof.
  unfold owned, describe. intros H Hl.
  destruct (s !! req) as [[| | |o]|] eqn:Hreq; try done.
  assert (l ≠ req ∧ l ≠ headers o ∧ l ≠ search o) as (H1 & H2 & H3).
  { repeat split; intros ->; apply Hl; set_solver. }
  rewrite (list_lookup_insert_ne s l req) by done.
  rewrite Hreq.
  by rewrite (list_lookup_insert_ne s l (headers o)),
    (list_lookup_insert_ne s l (search o)) by done.
Qed.

(** *** Body *)

(** C3. With at least one Body binding the body of the compiled request
    is the JSON text of the argument that the binding at index 0 of the
    Body list points at, whatever bindings follow it; with no Body binding
    the body is [null], and so neither the empty string nor the string
    [null].  (A Body list that is present and empty cannot be built by the
    decorators; the code throws on it.) *)
Theorem body_from_first_binding method url target propertyKey d this args s :
  match target !! metadataKey propertyKey "Body" with
  | Some (p :: _) =>
      ∃ rd, compiled method url target propertyKey d this args s = Some rd
            ∧ rd_body rd = JSON_stringify (arg args (parameterIndex p))
  | Some [] => compiled method url target propertyKey d this args s = None
  | None =>
      ∃ rd, compiled method url target propertyKey d this args s = Some rd
            ∧ rd_body rd = JNull
            ∧ rd_body rd ≠ JStr EmptyString
            ∧ rd_body rd ≠ JStr "null"
  end.
Proof.
  destruct (target !! metadataKey propertyKey "Body") as [[|p ps]|] eqn:HB.
  - unfold compiled. by rewrite HB, compileRequest_throw.
  - eexists. split; [apply compiled_run; by rewrite HB|].
    simpl. by rewrite HB.
  - eexists. split; [apply compiled_run; by rewrite HB|].
    simpl. by rewrite HB.
Qed.

(** *** The scenario of the specification *)

(** C5. [GET /users/{id}] with [@Path("id")] on argument 0 and
    [@Query("active")] on argument 1, called with [("42", true)] on a
    client whose base URL is [https://api.test]: the URL is
    [https://api.test/users/42] and the query holds exactly
    [active=true]. *)
Theorem getUser_scenario s :
  ∃ rd,
    compiled Get "/users/{id}" UserService "getUser" descriptor.initial
      (BaseUrl "https://api.test" RESTClient_class) [JStr "42"; JBool true] s
    = Some rd
    ∧ rd_url rd = "https://api.test/users/42"
    ∧ rd_search rd = [("active", "true")].
Proof.
  eexists. split; [apply compiled_run; by vm_compute|].
  split; by vm_compute.
Qed.

(** *** Path substitution *)

Lemma strip_prefix_Some p s rest :
  strip_prefix p s = Some rest ↔ s = p +:+ rest.
Proof.
  revert s. induction p as [|a p IH]; intros s; simpl.
  - split; [by intros [= ->] | by intros ->].
  - destruct s as [|b s]; [by split|].
    destruct (Ascii.eqb_spec a b) as [->|Hne].
    + rewrite IH. split; [by intros -> | by intros [= ->]].
    + split; [done | by intros [= -> _]].
Qed.

(** [split_first] finds an occurrence ... *)
Lemma split_first_Some p s before after :
  split_first p s = Some (before, after) → s = before +:+ p +:+ after.
Proof.
  revert before. induction s as [|c s IH]; intros before; simpl.
  - destruct (strip_prefix p EmptyString) eqn:Hp; [|done].
    intros [= <- <-]. exact (proj1 (strip_prefix_Some _ _ _) Hp).
  - destruct (strip_prefix p (String c s)) eqn:Hp.
    + intros [= <- <-]. exact (proj1 (strip_prefix_Some _ _ _) Hp).
    + destruct (split_first p s) as [[b a]|]; [|done].
      intros [= <- <-].
      change (String c s = String c (b +:+ p +:+ a)). f_equal. by apply IH.
Qed.

(** ... and it is the first one. *)
Lemma split_first_first p s before' after' :
  s = before' +:+ p +:+ after' →
  ∃ before after,
    split_first p s = Some (before, after)
    ∧ (String.length before ≤ String.length before')%nat.
Proof.
  revert before'. induction s as [|c s IH]; intros before' Hs.
  - destruct before' as [|c' b']; [|done].
    change (EmptyString = p +:+ after') in Hs.
    apply strip_prefix_Some in Hs. simpl. rewrite Hs.
    by exists EmptyString, after'.
  - simpl. destruct (strip_prefix p (String c s)) as [rest|] eqn:Hp.
    + exists EmptyString, rest. split; [done | simpl; lia].
    + destruct before' as [|c' b'].
      * change (String c s = p +:+ after') in Hs.
        apply strip_prefix_Some in Hs. congruence.
      * change (String c s = String c' (b' +:+ p +:+ after')) in Hs.
        injection Hs as -> Hs.
        destruct (IH _ Hs) as (b & a & Hsplit & Hlen).
        rewrite Hsplit. exists (String c' b), a. split; [done | simpl; lia].
Qed.

Lemma GetSubstitution_no_dollar matched before after r :
  no_dollar r = true → GetSubstitution matched before after r = r.
Proof.
  induction r as [|c r IH]; [done|]. simpl.
  intros [Hc Hr]%andb_true_iff.
  destruct (Ascii.eqb c "$"); [done|]. by rewrite IH.
Qed.

(** Where the string form of the argument has no dollar sign, a Path
    binding on [k] replaces the first [{k}] of the URL by that string form
    and leaves the rest of the URL as it is. *)
Lemma replace_path_no_dollar args resUrl p before after' :
  resUrl = before +:+ ("{" +:+ key p +:+ "}") +:+ after' →
  no_dollar (ToString (arg args (parameterIndex p))) = true →
  ∃ before0 after0,
    resUrl = before0 +:+ ("{" +:+ key p +:+ "}") +:+ after0
    ∧ (String.length before0 ≤ String.length before)%nat
    ∧ replace_path args resUrl p
      = before0 +:+ ToString (arg args (parameterIndex p)) +:+ after0.
Proof.
  intros Hs Hd.
  destruct (split_first_first _ _ _ _ Hs) as (b & a & Hsplit & Hlen).
  exists b, a. split; [by apply split_first_Some|]. split; [done|].
  unfold replace_path, String_replace. rewrite Hsplit.
  by rewrite GetSubstitution_no_dollar.
Qed.

(** C4 (evaluation at the failing input).  [getUser("$&", true)]: the
    string form of the argument is [$&], which [String.prototype.replace]
    reads as "the matched text", so the placeholder [{id}] is replaced by
    itself and the URL does not carry the argument. *)
Theorem path_dollar_ampersand s :
  ∃ rd,
    compiled Get "/users/{id}" UserService "getUser" descriptor.initial
      (BaseUrl "https://api.test" RESTClient_class) [JStr "$&"; JBool true] s
    = Some rd
    ∧ rd_url rd = "https://api.test/users/{id}"
    ∧ rd_url rd ≠ "https://api.test/users/$&".
Proof.
  eexists. split; [apply compiled_run; by vm_compute|].
  split; by vm_compute.
Qed.

(** The same defect on [$$]: one dollar sign reaches the URL. *)
Lemma path_dollar_dollar :
  String_replace "/price/{p}" "{p}" (JStr "$$5") = "/price/$5".
Proof. reflexivity. Qed.

(** *** Base URL *)

(** C6 (evaluation at the failing input).  On a client without
    [@BaseUrl], [getBaseUrl()] is [null], and [null + resUrl] is the text
    [null] followed by the path: the call does not throw, but the URL is
    not the resolved path alone. *)
Theorem no_base_url_prefix s :
  ∃ rd,
    compiled Get "/users/{id}" UserService "getUser" descriptor.initial
      RESTClient_class [JStr "42"; JBool true] s
    = Some rd
    ∧ rd_url rd = "null/users/42"
    ∧ rd_url rd ≠ "/users/42".
Proof.
  eexists. split; [apply compiled_run; by vm_compute|].
  split; by vm_compute.
Qed.

(** For every operation, the URL on a client without a base URL. *)
Lemma no_base_url method url target propertyKey d this args s :
  getBaseUrl this = None →
  target !! metadataKey propertyKey "Body" ≠ Some [] →
  ∃ rd,
    compiled method url target propertyKey d this args s = Some rd
    ∧ rd_url rd
      = "null" +:+ resUrl_of url (target !! metadataKey propertyKey "Path") args.
Proof.
  intros Hb HB. eexists. split; [by apply compiled_run|].
  simpl. by rewrite Hb.
Qed.

(** *** Parameter decorators *)

Lemma paramBuilder_same paramName k target propertyKey i :
  paramBuilder paramName k target propertyKey i !! metadataKey propertyKey paramName
  = Some (params target propertyKey paramName ++ [mkParamObj k i])%list.
Proof.
  unfold paramBuilder, params.
  destruct (target !! metadataKey propertyKey paramName);
    by rewrite lookup_insert_eq.
Qed.

Lemma paramBuilder_other paramName k target propertyKey i m :
  m ≠ metadataKey propertyKey paramName →
  paramBuilder paramName k target propertyKey i !! m = target !! m.
Proof.
  intros Hm. unfold paramBuilder.
  destruct (target !! metadataKey propertyKey paramName);
    by rewrite lookup_insert_ne.
Qed.

(** The decorators never leave an empty parameter list behind. *)
Lemma paramBuilder_nonempty paramName k target propertyKey i :
  (∀ m, target !! m ≠ Some []) →
  ∀ m, paramBuilder paramName k target propertyKey i !! m ≠ Some [].
Proof.
  intros Ht m.
  destruct (decide (m = metadataKey propertyKey paramName)) as [->|Hm].
  - rewrite paramBuilder_same. intros [= H]. by destruct (params _ _ _).
  - by rewrite paramBuilder_other.
Qed.

Lemma decorated_nonempty target m :
  decorated target → target !! m ≠ Some [].
Proof.
  intros Hd. revert m. induction Hd as [|paramName k target propertyKey i _ IH].
  - intros m. by rewrite lookup_empty.
  - by apply paramBuilder_nonempty.
Qed.

(** On a decorated class every call compiles a request: the method body
    never reads [pBody[0]] of an empty list. *)
Lemma compiled_decorated method url target propertyKey d this args s :
  decorated target →
  is_Some (compiled method url target propertyKey d this args s).
Proof.
  intros Hd. rewrite compiled_run by by apply decorated_nonempty. by eexists.
Qed.

Lemma UserService_decorated : decorated UserService.
Proof. repeat apply decorated_param. apply decorated_class. Qed.

(** C7. A run of registrations on the list of one method and one role
    leaves the entries the list had, followed by one parameter object per
    registration, in registration order; a registration that repeats an
    earlier one adds an entry like any other.  The list grows by exactly
    the number of registrations. *)
Theorem registrations_append paramName propertyKey target regs :
  params (register paramName propertyKey target regs) propertyKey paramName
  = (params target propertyKey paramName
     ++ map (λ kp, {| key := kp.1; parameterIndex := kp.2 |}) regs)%list
  ∧ length (params (register paramName propertyKey target regs) propertyKey paramName)
    = length (params target propertyKey paramName) + length regs.
Proof.
  assert (Heq : params (register paramName propertyKey target regs) propertyKey paramName
    = (params target propertyKey paramName
       ++ map (λ kp, {| key := kp.1; parameterIndex := kp.2 |}) regs)%list).
  { revert target. induction regs as [|[k i] regs IH]; intros target.
    - simpl. by rewrite app_nil_r.
    - simpl. rewrite IH. unfold params at 1. rewrite paramBuilder_same. simpl.
      by rewrite <- app_assoc. }
  split; [done|]. by rewrite Heq, length_app, length_map.
Qed.

(** Registrations on another list leave this one alone. *)
Lemma register_other paramName propertyKey target regs m :
  m ≠ metadataKey propertyKey paramName →
  register paramName propertyKey target regs !! m = target !! m.
Proof.
  intros Hm. revert target. induction regs as [|[k i] regs IH]; intros target.
  - done.
  - simpl. rewrite IH. by apply paramBuilder_other.
Qed.

(** The metadata key tells the method and the role apart. *)
Lemma list_ascii_of_string_app a b :
  list_ascii_of_string (a +:+ b)
  = (list_ascii_of_string a ++ list_ascii_of_string b)%list.
Proof. induction a as [|c a IH]; simpl; [done | by rewrite IH]. Qed.

Lemma metadataKey_inj pk1 r1 pk2 r2 :
  metadataKey pk1 (paramName r1) = metadataKey pk2 (paramName r2) →
  pk1 = pk2 ∧ paramName r1 = paramName r2.
Proof.
  unfold metadataKey. intros H.
  apply (f_equal list_ascii_of_string) in H.
  rewrite !list_ascii_of_string_app in H.
  apply (f_equal (@rev ascii)) in H. rewrite !rev_app_distr in H.
  destruct r1, r2; simpl in H; try discriminate H;
    (split; [|done]);
    simplify_eq;
    match goal with
    | E : rev _ = rev _ |- _ =>
        apply (f_equal (@rev ascii)) in E; rewrite !rev_involutive in E;
        apply (f_equal string_of_list_ascii) in E;
        by rewrite !string_of_list_ascii_of_string in E
    end.
Qed.

(** Registrations for several methods and roles, in any order: the list of
    one method and role receives exactly its own registrations, in the
    order they were made. *)
Lemma registrations_interleaved target regs propertyKey role :
  params (fold_left decorate regs target) propertyKey (paramName role)
  = (params target propertyKey (paramName role)
     ++ map (λ r, {| key := reg_key r; parameterIndex := reg_index r |})
          (List.filter (on_list propertyKey role) regs))%list.
Proof.
  revert target. induction regs as [|r regs IH]; intros target; simpl.
  - by rewrite app_nil_r.
  - rewrite IH. unfold on_list at 2. case_bool_decide as Hr.
    + destruct Hr as [<- <-]. unfold decorate at 1, params at 1.
      rewrite paramBuilder_same. simpl. by rewrite <- app_assoc.
    + unfold decorate at 1, params at 1. rewrite paramBuilder_other; [done|].
      intros Heq. apply Hr. symmetry in Heq.
      by apply metadataKey_inj in Heq.
Qed.

(** *** The stages of a call *)

(** C8. A call compiles the request, then runs the request interceptor on
    it, then hands it to [Http.request]; with [@Produces(MediaType.JSON)]
    the observable is mapped through [res.json()] before the response
    interceptor receives it, and the response interceptor comes last.  The
    response interceptor of [RESTClient] returns its input as it is. *)
Theorem call_stages method url target propertyKey d this args s req s1 s2 res s3 :
  compileRequest method url
    (target !! metadataKey propertyKey "Path")
    (target !! metadataKey propertyKey "Query")
    (target !! metadataKey propertyKey "Body")
    (target !! metadataKey propertyKey "Header") d this args s = Ok (req, s1) →
  requestInterceptor this req s1 = Ok (tt, s2) →
  let observable :=
    match descriptor.isJSON d with
    | Some true => Observable_map res_json (Http_request req)
    | _ => Http_request req
    end in
  responseInterceptor this observable s2 = Ok (res, s3) →
  methodBuilder method url target propertyKey d this args s
  = ([call_requestInterceptor req; call_http_request req]
     ++ match descriptor.isJSON d with
        | Some true => [call_map res_json]
        | _ => []
        end
     ++ [call_responseInterceptor observable],
     Ok (res, s3))%list
  ∧ (∀ o s', responseInterceptor RESTClient_class o s' = Ok (o, s')).
Proof.
  intros Hc Hi observable Hr. split; [|done].
  unfold methodBuilder, mbind, Proc_bind, lift, calling.
  rewrite Hc, Hi. unfold mret at 1, St_ret.
  subst observable.
  destruct (descriptor.isJSON d) as [[|]|]; simpl; by rewrite Hr.
Qed.

(** An interceptor that throws ends the call before the request is sent. *)
Lemma requestInterceptor_throws method url target propertyKey d this args s req s1 e :
  compileRequest method url
    (target !! metadataKey propertyKey "Path")
    (target !! metadataKey propertyKey "Query")
    (target !! metadataKey propertyKey "Body")
    (target !! metadataKey propertyKey "Header") d this args s = Ok (req, s1) →
  requestInterceptor this req s1 = Throw e →
  methodBuilder method url target propertyKey d this args s
  = ([call_requestInterceptor req], Throw e).
Proof.
  intros Hc Hi. unfold methodBuilder, mbind, Proc_bind, lift, calling.
  by rewrite Hc, Hi.
Qed.

(** *** Two compilations of the same call *)

Lemma owned_added s q h o' o :
  owned (s ++ [OURLSearchParams q; OHeaders h; ORequestOptions o'; ORequest o])%list
    (3 + length s)
  = [3 + length s; headers o; search o].
Proof.
  unfold owned. by rewrite (lookup_added s _ 3).
Qed.

Lemma owned_app s more req rd :
  describe s req = Some rd → owned (s ++ more)%list req = owned s req.
Proof.
  unfold describe, owned. intros H.
  destruct (s !! req) as [[| | |o]|] eqn:Hreq; try done.
  by rewrite (lookup_app_l_Some _ _ _ _ Hreq).
Qed.

(** In the store: compiling the same call twice in a row gives two requests that
    read the same field for field (method, URL, headers, body, query) and
    are different objects that own different objects: writing to a
    location one of them owns leaves the other as it was.  (The arguments
    of the call are values here, not objects of the store.) *)
Theorem compile_twice_fresh method url pPath pQuery pBody pHeader d this args
    s req1 s1 :
  compileRequest method url pPath pQuery pBody pHeader d this args s
  = Ok (req1, s1) →
  ∃ req2 s2 rd,
    compileRequest method url pPath pQuery pBody pHeader d this args s1
    = Ok (req2, s2)
    ∧ describe s1 req1 = Some rd
    ∧ describe s2 req1 = Some rd
    ∧ describe s2 req2 = Some rd
    ∧ req1 ≠ req2
    ∧ (∀ l, l ∈ owned s2 req1 → l ∉ owned s2 req2)
    ∧ (∀ l ob, l ∈ owned s2 req1 → describe (<[l := ob]> s2) req2 = Some rd)
    ∧ (∀ l ob, l ∈ owned s2 req2 → describe (<[l := ob]> s2) req1 = Some rd).
Proof.
  intros H1.
  assert (HBody : pBody ≠ Some []).
  { intros ->. by rewrite compileRequest_throw in H1. }
  rewrite compileRequest_run in H1 by done. cbv zeta in H1.
  injection H1 as <- <-.
  set (q := search_of pQuery args).
  set (h := headers_of (getDefaultHeaders this) (descriptor.headers d) pHeader args).
  set (u := plus (getBaseUrl this) (resUrl_of url pPath args)).
  set (b := body_of pBody args).
  set (o1 := {| method := method; url := u; headers := 1 + length s;
                body := b; search := length s |}).
  set (s1 := (s ++ [OURLSearchParams q; OHeaders h; ORequestOptions o1;
                    ORequest o1])%list).
  set (o2 := {| method := method; url := u; headers := 1 + length s1;
                body := b; search := length s1 |}).
  set (rd := {| rd_method := method; rd_url := u; rd_headers := h;
                rd_body := b; rd_search := q |}).
  assert (Hlen : length s1 = 4 + length s).
  { unfold s1. rewrite length_app. simpl. lia. }
  assert (Hd1 : describe s1 (3 + length s) = Some rd).
  { unfold s1. by rewrite describe_added. }
  set (s2 := (s1 ++ [OURLSearchParams q; OHeaders h; ORequestOptions o2;
                     ORequest o2])%list).
  assert (Hd1' : describe s2 (3 + length s) = Some rd) by by apply describe_app.
  assert (Hd2 : describe s2 (3 + length s1) = Some rd).
  { unfold s2. by rewrite describe_added. }
  assert (Ho1 : owned s2 (3 + length s) = [3 + length s; 1 + length s; length s]).
  { unfold s2. rewrite (owned_app _ _ _ _ Hd1). unfold s1. by rewrite owned_added. }
  assert (Ho2 : owned s2 (3 + length s1)
                = [3 + length s1; 1 + length s1; length s1]).
  { unfold s2. by rewrite owned_added. }
  assert (Hdisj : ∀ l, l ∈ owned s2 (3 + length s) → l ∉ owned s2 (3 + length s1)).
  { intros l. rewrite Ho1, Ho2, Hlen, !elem_of_cons, !elem_of_nil. lia. }
  exists (3 + length s1), s2, rd. split_and!; try done.
  - by rewrite compileRequest_run.
  - lia.
  - intros l ob Hl. apply describe_insert_other; [done|]. by apply Hdisj.
  - intros l ob Hl. apply describe_insert_other; [done|].
    intros Hl'. by apply (Hdisj l).
Qed.

(** *** Headers *)

Lemma Map_get_set {V : Type} (m : list (string * V)) k v k' :
  Map_get (Map_set m k v) k' = if decide (k = k') then Some v else Map_get m k'.
Proof.
  induction m as [|[a b] m IH]; simpl.
  - done.
  - destruct (decide (a = k)) as [->|Hak]; simpl.
    + by destruct (decide (k = k')).
    + rewrite IH. destruct (decide (a = k')) as [->|]; [|done].
      by destruct (decide (k = k')).
Qed.

Lemma Map_get_delete {V : Type} (m : list (string * V)) k k' :
  Map_get (Map_delete m k) k' = if decide (k = k') then None else Map_get m k'.
Proof.
  induction m as [|[a b] m IH]; simpl.
  - by destruct (decide (k = k')).
  - destruct (decide (a = k)) as [->|Hak]; simpl.
    + rewrite IH. by destruct (decide (k = k')).
    + rewrite IH. destruct (decide (a = k')) as [->|]; [|done].
      by destruct (decide (k = k')).
Qed.

Lemma same_name_true a b : same_name a b = true ↔ toLowerCase a = toLowerCase b.
Proof. unfold same_name. by rewrite bool_decide_eq_true. Qed.

Lemma getAll_same_name h a b :
  same_name a b = true → Headers_getAll h a = Headers_getAll h b.
Proof. intros H%same_name_true. unfold Headers_getAll. by rewrite H. Qed.

Lemma getAll_mayBeSetNormalizedName h n k :
  Headers_getAll (Headers_mayBeSetNormalizedName h n) k = Headers_getAll h k.
Proof.
  unfold Headers_mayBeSetNormalizedName.
  by destruct (Map_has (_normalizedNames h) (toLowerCase n)).
Qed.

Lemma getAll_stored h n vs k :
  Headers_getAll {| _headers := Map_set (_headers h) (toLowerCase n) vs;
                    _normalizedNames := _normalizedNames h |} k
  = if same_name n k then Some vs else Headers_getAll h k.
Proof.
  unfold Headers_getAll, same_name. simpl. rewrite Map_get_set.
  by destruct (decide (toLowerCase n = toLowerCase k));
    [rewrite bool_decide_eq_true_2 | rewrite bool_decide_eq_false_2].
Qed.

Lemma getAll_set h n x k :
  Headers_getAll (Headers_set h n x) k
  = if same_name n k then
      match x with
      | JArr [] => Headers_getAll h k
      | JArr (_ :: _) => Some [JStr (ToString x)]
      | _ => Some [x]
      end
    else Headers_getAll h k.
Proof.
  unfold Headers_set. rewrite getAll_mayBeSetNormalizedName.
  destruct x as [| | | | |[|e l]|]; rewrite ?getAll_stored; try done.
  by destruct (same_name n k).
Qed.

Lemma getAll_append h n v k :
  isArray v = false →
  Headers_getAll (Headers_append h n v) k
  = if same_name n k then Some (values_of h k ++ [v])%list
    else Headers_getAll h k.
Proof.
  intros Hv. unfold Headers_append, values_of.
  destruct (Headers_getAll h n) as [vs|] eqn:Hn.
  - rewrite getAll_stored. destruct (same_name n k) eqn:Hnk; [|done].
    by rewrite <- (getAll_same_name h n k Hnk), Hn.
  - rewrite getAll_set. destruct (same_name n k) eqn:Hnk; [|done].
    rewrite <- (getAll_same_name h n k Hnk), Hn. by destruct v as [| | | | |l|].
Qed.

Lemma values_append h n v k :
  isArray v = false →
  values_of (Headers_append h n v) k
  = (values_of h k ++ if same_name n k then [v] else [])%list.
Proof.
  intros Hv. unfold values_of at 1. rewrite getAll_append by done.
  destruct (same_name n k); [done|]. by rewrite app_nil_r.
Qed.

(** Appending never removes a value, whatever is appended. *)
Lemma values_append_mono h n x k v :
  v ∈ values_of h k → v ∈ values_of (Headers_append h n x) k.
Proof.
  unfold Headers_append, values_of at 2.
  destruct (Headers_getAll h n) as [vs|] eqn:Hn.
  - rewrite getAll_stored. destruct (same_name n k) eqn:Hnk; [|done].
    unfold values_of. rewrite <- (getAll_same_name h n k Hnk), Hn. simpl.
    set_solver.
  - rewrite getAll_set. destruct (same_name n k) eqn:Hnk; [|done].
    unfold values_of. rewrite <- (getAll_same_name h n k Hnk), Hn. simpl.
    by intros ?%elem_of_nil.
Qed.

Lemma values_fold_static props h k :
  Forall (λ kv : string * JsValue, isArray kv.2 = false) props →
  values_of (fold_left append_static props h) k
  = (values_of h k ++ static_values k props)%list.
Proof.
  intros Hp. revert h. induction Hp as [|[n v] props Hv _ IH]; intros h.
  - simpl. by rewrite app_nil_r.
  - simpl. rewrite IH. unfold append_static. rewrite values_append by done.
    unfold static_values. simpl.
    destruct (same_name n k); simpl; by rewrite <- app_assoc.
Qed.

Lemma values_fold_param args ps h k :
  Forall (λ p, isArray (arg args (parameterIndex p)) = false) ps →
  values_of (fold_left (append_param args) ps h) k
  = (values_of h k ++ param_values k args ps)%list.
Proof.
  intros Hp. revert h. induction Hp as [|p ps Hv _ IH]; intros h.
  - simpl. by rewrite app_nil_r.
  - simpl. rewrite IH. unfold append_param. rewrite values_append by done.
    unfold param_values. simpl.
    destruct (same_name (key p) k); simpl; by rewrite <- app_assoc.
Qed.

Lemma getAll_delete h n k :
  Headers_getAll (Headers_delete h n) k
  = if same_name n k then None else Headers_getAll h k.
Proof.
  unfold Headers_getAll, Headers_delete, same_name. simpl. rewrite Map_get_delete.
  by destruct (decide (toLowerCase n = toLowerCase k));
    [rewrite bool_decide_eq_true_2 | rewrite bool_decide_eq_false_2].
Qed.

Lemma values_init_property h n v k :
  isArray v = false →
  values_of (Headers_init_property h (n, v)) k
  = if same_name n k then [v] else values_of h k.
Proof.
  intros Hv. unfold Headers_init_property.
  destruct v as [| | | | |l|]; try discriminate Hv; simpl;
    rewrite values_append by done;
    unfold values_of; rewrite getAll_delete;
    (destruct (same_name n k); [done | by rewrite app_nil_r]).
Qed.

Lemma values_init_fold props h k :
  Forall (λ kv : string * JsValue, isArray kv.2 = false) props →
  values_of (fold_left Headers_init_property props h) k
  = match last (static_values k props) with
    | Some v => [v]
    | None => values_of h k
    end.
Proof.
  intros Hp. revert h. induction Hp as [|[n v] props Hv _ IH]; intros h.
  - done.
  - simpl. rewrite IH, values_init_property by done.
    unfold static_values. simpl.
    destruct (same_name n k); simpl; [|done].
    rewrite last_cons. by destruct (last _).
Qed.

Lemma values_init defaults k :
  Forall (λ kv : string * JsValue, isArray kv.2 = false) (default [] defaults) →
  values_of (Headers_init defaults) k = default_values k defaults.
Proof.
  intros Hp. unfold default_values. destruct defaults as [props|]; [|done].
  simpl. by rewrite values_init_fold.
Qed.

Lemma Headers_get_values h name :
  Headers_get h name = default JNull (head (values_of h name)).
Proof.
  unfold Headers_get, values_of.
  by destruct (Headers_getAll h name) as [[|v vs]|].
Qed.

Lemma Headers_has_values h name v :
  v ∈ values_of h name → Headers_has h name = true.
Proof.
  unfold values_of, Headers_has, Headers_getAll, Map_has.
  destruct (Map_get (_headers h) (toLowerCase name)); [done|].
  by intros ?%elem_of_nil.
Qed.

(** C1 (as amended).  The headers of a compiled request are gathered in
    the order (a) default headers of the client, (b) headers of the
    method, (c) Header bindings of the call; header names are compared
    without regard to case.  A later layer does not override an earlier
    one: its value is added after the values the name already holds, and
    [get] answers with the first of them.  Header values are the plain
    (non-array) values the decorators are documented for. *)
Theorem header_layers_accumulate method url target propertyKey d this args s name :
  Forall (λ kv : string * JsValue, isArray kv.2 = false)
    (default [] (getDefaultHeaders this)) →
  Forall (λ kv : string * JsValue, isArray kv.2 = false)
    (default [] (descriptor.headers d)) →
  Forall (λ p, isArray (arg args (parameterIndex p)) = false)
    (params target propertyKey "Header") →
  target !! metadataKey propertyKey "Body" ≠ Some [] →
  ∃ rd,
    compiled method url target propertyKey d this args s = Some rd
    ∧ values_of (rd_headers rd) name
      = (default_values name (getDefaultHeaders this)
         ++ static_values name (default [] (descriptor.headers d))
         ++ param_values name args (params target propertyKey "Header"))%list
    ∧ Headers_get (rd_headers rd) name
      = default JNull
          (head (default_values name (getDefaultHeaders this)
                 ++ static_values name (default [] (descriptor.headers d))
                 ++ param_values name args (params target propertyKey "Header"))%list).
Proof.
  intros Hd Hs Hp HB. eexists. split; [by apply compiled_run|].
  simpl.
  assert (Hv : values_of
                 (headers_of (getDefaultHeaders this) (descriptor.headers d)
                    (target !! metadataKey propertyKey "Header") args) name
               = (default_values name (getDefaultHeaders this)
                  ++ static_values name (default [] (descriptor.headers d))
                  ++ param_values name args (params target propertyKey "Header"))%list).
  { unfold headers_of. fold (params target propertyKey "Header").
    rewrite values_fold_param, values_fold_static, values_init by done.
    by rewrite <- app_assoc. }
  split; [done|]. by rewrite Headers_get_values, Hv.
Qed.

(** The example of the specification: default headers [{A: 1}], method
    headers [{A: 2, B: 3}] and a Header binding [A] called with [4] give
    [1, 2, 4] under [A], and [get("A")] is [1]. *)
Lemma header_layers_accumulate_witness :
  Forall (λ kv : string * JsValue, isArray kv.2 = false)
    (default [] (getDefaultHeaders (DefaultHeaders [("A", JStr "1")] RESTClient_class)))
  ∧ Forall (λ kv : string * JsValue, isArray kv.2 = false)
      (default [] (descriptor.headers ping_descriptor))
  ∧ Forall (λ p, isArray (arg [JStr "4"] (parameterIndex p)) = false)
      (params UserService "ping" "Header")
  ∧ UserService !! metadataKey "ping" "Body" ≠ Some []
  ∧ ∃ rd,
      compiled Get "/ping" UserService "ping" ping_descriptor
        (DefaultHeaders [("A", JStr "1")] RESTClient_class) [JStr "4"] []
      = Some rd
      ∧ values_of (rd_headers rd) "A" = [JStr "1"; JStr "2"; JStr "4"]
      ∧ Headers_get (rd_headers rd) "A" = JStr "1".
Proof.
  assert (H1 : Forall (λ kv : string * JsValue, isArray kv.2 = false)
    (default [] (getDefaultHeaders (DefaultHeaders [("A", JStr "1")] RESTClient_class))))
    by (repeat constructor).
  assert (H2 : Forall (λ kv : string * JsValue, isArray kv.2 = false)
      (default [] (descriptor.headers ping_descriptor)))
    by (repeat constructor).
  assert (H3 : Forall (λ p, isArray (arg [JStr "4"] (parameterIndex p)) = false)
      (params UserService "ping" "Header"))
    by (vm_compute; repeat constructor).
  assert (H4 : UserService !! metadataKey "ping" "Body" ≠ Some [])
    by (vm_compute; discriminate).
  split_and!; try assumption.
  exact (header_layers_accumulate Get "/ping" UserService "ping" ping_descriptor
           (DefaultHeaders [("A", JStr "1")] RESTClient_class) [JStr "4"] [] "A"
           H1 H2 H3 H4).
Defined.

(** C1 (counterexample).  In that example the compiled headers are not
    [{A: 4, B: 3}]: [A] holds three values and [get("A")] is not [4]. *)
Lemma header_override_counterexample :
  ∃ rd,
    compiled Get "/ping" UserService "ping" ping_descriptor
      (DefaultHeaders [("A", JStr "1")] RESTClient_class) [JStr "4"] []
    = Some rd
    ∧ rd_headers rd ≠ Headers_init (Some [("A", JStr "4"); ("B", JStr "3")])
    ∧ Headers_getAll (rd_headers rd) "A" = Some [JStr "1"; JStr "2"; JStr "4"]
    ∧ Headers_getAll (rd_headers rd) "B" = Some [JStr "3"]
    ∧ Headers_get (rd_headers rd) "A" ≠ JStr "4".
Proof.
  eexists. split; [apply compiled_run; by vm_compute|].
  split_and!; by vm_compute.
Qed.

Lemma falsy_not_array v : ToBoolean v = false → isArray v = false.
Proof. by destruct v. Qed.

Lemma same_name_refl a : same_name a a = true.
Proof. by apply same_name_true. Qed.

Lemma values_fold_param_mono args ps h k v :
  v ∈ values_of h k → v ∈ values_of (fold_left (append_param args) ps h) k.
Proof.
  revert h. induction ps as [|p ps IH]; intros h Hv; [done|].
  simpl. apply IH. by apply values_append_mono.
Qed.

Lemma values_fold_param_elem args ps h p :
  p ∈ ps →
  isArray (arg args (parameterIndex p)) = false →
  arg args (parameterIndex p)
  ∈ values_of (fold_left (append_param args) ps h) (key p).
Proof.
  intros Hp Hv. revert h. induction Hp as [p ps|p x ps _ IH]; intros h; simpl.
  - apply values_fold_param_mono. unfold append_param.
    rewrite values_append, same_name_refl by done. set_solver.
  - apply IH, Hv.
Qed.

(** C10. Header bindings are not filtered.  The headers of the compiled
    request are the default and method headers with every Header binding
    appended in turn; and a binding whose argument is falsy - [undefined]
    for a missing argument, [null], [false], [0] or the empty string -
    still leaves that very value under its key, so that the header is
    there. *)
Theorem header_bindings_unfiltered method url target propertyKey d this args s ps p :
  target !! metadataKey propertyKey "Header" = Some ps →
  p ∈ ps →
  ToBoolean (arg args (parameterIndex p)) = false →
  target !! metadataKey propertyKey "Body" ≠ Some [] →
  ∃ rd,
    compiled method url target propertyKey d this args s = Some rd
    ∧ rd_headers rd
      = fold_left (append_param args) ps
          (headers_of (getDefaultHeaders this) (descriptor.headers d) None args)
    ∧ arg args (parameterIndex p) ∈ values_of (rd_headers rd) (key p)
    ∧ Headers_has (rd_headers rd) (key p) = true.
Proof.
  intros Hps Hp Hv HB. eexists. split; [by apply compiled_run|].
  simpl. rewrite Hps. unfold headers_of at 1 2 3. simpl.
  assert (Hin : arg args (parameterIndex p)
                ∈ values_of
                    (fold_left (append_param args) ps
                       (fold_left append_static
                          (default [] (descriptor.headers d))
                          (Headers_init (getDefaultHeaders this)))) (key p)).
  { apply values_fold_param_elem; [done|]. by apply falsy_not_array. }
  split_and!; [done | done | by eapply Headers_has_values].
Qed.

(** A call of [ping()] without its argument: the header [A] holds
    [undefined] after the value of the method header. *)
Lemma header_bindings_unfiltered_witness :
  UserService !! metadataKey "ping" "Header" = Some [mkParamObj "A" 0]
  ∧ mkParamObj "A" 0 ∈ [mkParamObj "A" 0]
  ∧ ToBoolean (arg [] (parameterIndex (mkParamObj "A" 0))) = false
  ∧ UserService !! metadataKey "ping" "Body" ≠ Some []
  ∧ ∃ rd,
      compiled Get "/ping" UserService "ping" ping_descriptor RESTClient_class [] []
      = Some rd
      ∧ rd_headers rd
        = fold_left (append_param []) [mkParamObj "A" 0]
            (headers_of (getDefaultHeaders RESTClient_class)
               (descriptor.headers ping_descriptor) None [])
      ∧ arg [] (parameterIndex (mkParamObj "A" 0))
        ∈ values_of (rd_headers rd) (key (mkParamObj "A" 0))
      ∧ Headers_has (rd_headers rd) (key (mkParamObj "A" 0)) = true.
Proof.
  assert (H1 : UserService !! metadataKey "ping" "Header" = Some [mkParamObj "A" 0])
    by (by vm_compute).
  assert (H2 : mkParamObj "A" 0 ∈ [mkParamObj "A" 0]) by apply list_elem_of_here.
  assert (H3 : ToBoolean (arg [] (parameterIndex (mkParamObj "A" 0))) = false)
    by reflexivity.
  assert (H4 : UserService !! metadataKey "ping" "Body" ≠ Some [])
    by (vm_compute; discriminate).
  split_and!; try assumption.
  exact (header_bindings_unfiltered Get "/ping" UserService "ping" ping_descriptor
           RESTClient_class [] [] [mkParamObj "A" 0] (mkParamObj "A" 0)
           H1 H2 H3 H4).
Defined.

(** *** Percent-encoding *)

Lemma N_of_hex_digit d :
  (d < 16)%N →
  N_of_ascii (hex_digit true d) = if (d <? 10)%N then (48 + d)%N else (55 + d)%N.
Proof.
  intros Hd. unfold hex_digit.
  destruct (d <? 10)%N; apply N_ascii_embedding; lia.
Qed.

Lemma hex_digit_inj a b :
  (a < 16)%N → (b < 16)%N → hex_digit true a = hex_digit true b → a = b.
Proof.
  intros Ha Hb H. apply (f_equal N_of_ascii) in H.
  rewrite !N_of_hex_digit in H by done.
  destruct (N.ltb_spec a 10), (N.ltb_spec b 10); lia.
Qed.

Lemma percent_encode_char_inj c1 c2 r1 r2 :
  percent_encode_char c1 +:+ r1 = percent_encode_char c2 +:+ r2 →
  c1 = c2 ∧ r1 = r2.
Proof.
  unfold percent_encode_char.
  destruct (uri_unreserved c1) eqn:U1, (uri_unreserved c2) eqn:U2.
  - intros H. change (String c1 r1 = String c2 r2) in H. by injection H.
  - intros H.
    change (String c1 r1 = String "%" (String (hex_digit true (N_of_ascii c2 / 16))
              (String (hex_digit true (N_of_ascii c2 mod 16)) r2))) in H.
    injection H as -> _. done.
  - intros H.
    change (String "%" (String (hex_digit true (N_of_ascii c1 / 16))
              (String (hex_digit true (N_of_ascii c1 mod 16)) r1)) = String c2 r2) in H.
    injection H as <- _. done.
  - intros H.
    change (String "%" (String (hex_digit true (N_of_ascii c1 / 16))
              (String (hex_digit true (N_of_ascii c1 mod 16)) r1))
            = String "%" (String (hex_digit true (N_of_ascii c2 / 16))
              (String (hex_digit true (N_of_ascii c2 mod 16)) r2))) in H.
    injection H as Hhi Hlo ->. split; [|done].
    pose proof (N_ascii_bounded c1). pose proof (N_ascii_bounded c2).
    apply hex_digit_inj in Hhi;
      [|apply N.Div0.div_lt_upper_bound; lia|apply N.Div0.div_lt_upper_bound; lia].
    apply hex_digit_inj in Hlo; [|apply N.mod_lt; lia|apply N.mod_lt; lia].
    rewrite <- (ascii_N_embedding c1), <- (ascii_N_embedding c2). f_equal.
    rewrite (N.div_mod (N_of_ascii c1) 16), (N.div_mod (N_of_ascii c2) 16) by lia.
    by rewrite Hhi, Hlo.
Qed.

Lemma percent_encode_inj s1 s2 :
  percent_encode s1 = percent_encode s2 → s1 = s2.
Proof.
  revert s2. induction s1 as [|c1 s1 IH]; intros [|c2 s2]; simpl; try done.
  - unfold percent_encode_char. by destruct (uri_unreserved c2).
  - unfold percent_encode_char. by destruct (uri_unreserved c1).
  - intros [-> H]%percent_encode_char_inj. f_equal. by apply IH.
Qed.

(** [encodeURIComponent] does not confuse two keys. *)
Lemma encodeURIComponent_key_inj k1 k2 :
  encodeURIComponent (JStr k1) = encodeURIComponent (JStr k2) → k1 = k2.
Proof. apply percent_encode_inj. Qed.

(** *** Query *)

Lemma URLSearchParams_get_set q n v n' :
  URLSearchParams_get (URLSearchParams_set q n v) n'
  = if decide (n = n') then Some v else URLSearchParams_get q n'.
Proof.
  unfold URLSearchParams_get.
  induction q as [|[a b] q IH]; simpl.
  - done.
  - destruct (decide (a = n)) as [->|Han]; simpl.
    + destruct (decide (n = n')) as [->|Hn]; [done|].
      rewrite Map_get_delete. by destruct (decide (n = n')).
    + rewrite IH. destruct (decide (a = n')) as [->|]; [|done].
      by destruct (decide (n = n')).
Qed.

Lemma get_fold_set_query_other args xs q k :
  (∀ p, p ∈ xs → query_name p ≠ k) →
  URLSearchParams_get (fold_left (set_query args) xs q) k
  = URLSearchParams_get q k.
Proof.
  revert q. induction xs as [|x xs IH]; intros q Hxs; [done|].
  simpl. rewrite IH by (intros p Hp; apply Hxs; by right).
  unfold set_query. rewrite URLSearchParams_get_set.
  destruct (decide _) as [Heq|]; [|done].
  exfalso. apply (Hxs x); [by left | done].
Qed.

Lemma get_fold_set_query_elem args xs q p :
  NoDup (map query_name xs) →
  p ∈ xs →
  URLSearchParams_get (fold_left (set_query args) xs q) (query_name p)
  = Some (encodeURIComponent (query_value (arg args (parameterIndex p)))).
Proof.
  revert q. induction xs as [|x xs IH]; intros q Hnd Hp.
  - by apply elem_of_nil in Hp.
  - simpl in Hnd. apply NoDup_cons in Hnd as [Hx Hnd].
    apply elem_of_cons in Hp as [->|Hp]; simpl.
    + rewrite get_fold_set_query_other.
      * unfold set_query. rewrite URLSearchParams_get_set.
        unfold query_name. by rewrite decide_True.
      * intros p Hp Heq. apply Hx. rewrite <- Heq.
        by apply (list_elem_of_fmap_2 query_name).
    + by apply IH.
Qed.

Lemma NoDup_query_names ps :
  NoDup (map key ps) → NoDup (map query_name ps).
Proof.
  induction ps as [|p ps IH]; simpl; [done|].
  intros [Hp Hnd]%NoDup_cons. apply NoDup_cons. split; [|by apply IH].
  intros (p' & Heq & Hp')%list_elem_of_fmap. apply Hp.
  apply encodeURIComponent_key_inj in Heq. rewrite Heq.
  by apply (list_elem_of_fmap_2 key).
Qed.

Lemma NoDup_map_filter {A B : Type} (f : A → B) (P : A → bool) l :
  NoDup (map f l) → NoDup (map f (List.filter P l)).
Proof.
  induction l as [|x l IH]; simpl; [done|].
  intros [Hx Hnd]%NoDup_cons. destruct (P x); simpl; [|by apply IH].
  apply NoDup_cons. split; [|by apply IH].
  intros (y & Heq & Hy)%list_elem_of_fmap. apply Hx. rewrite Heq.
  apply (list_elem_of_fmap_2 f). apply list_elem_of_In in Hy.
  apply filter_In in Hy as [Hy _]. by apply list_elem_of_In.
Qed.

Lemma NoDup_map_eq {A B : Type} (f : A → B) l x y :
  NoDup (map f l) → x ∈ l → y ∈ l → f x = f y → x = y.
Proof.
  induction l as [|z l IH]; simpl; intros Hnd Hx Hy Heq.
  - by apply elem_of_nil in Hx.
  - apply NoDup_cons in Hnd as [Hz Hnd].
    apply elem_of_cons in Hx as [->|Hx]; apply elem_of_cons in Hy as [->|Hy].
    + done.
    + exfalso. apply Hz. rewrite Heq. by apply (list_elem_of_fmap_2 f).
    + exfalso. apply Hz. rewrite <- Heq. by apply (list_elem_of_fmap_2 f).
    + by apply IH.
Qed.

(** For a Query binding of an operation whose Query keys are distinct:
    when the bound argument is falsy - [undefined] for a missing argument,
    [null], [false], [0] or the empty string - the query of the compiled
    request has no entry under the binding's key; when it is truthy, the
    entry under the percent-encoded key is the percent-encoded value,
    where an object or array is first replaced by its JSON text. *)
Theorem query_assembly method url target propertyKey d this args s ps p :
  target !! metadataKey propertyKey "Query" = Some ps →
  NoDup (map key ps) →
  p ∈ ps →
  target !! metadataKey propertyKey "Body" ≠ Some [] →
  ∃ rd,
    compiled method url target propertyKey d this args s = Some rd
    ∧ let value := arg args (parameterIndex p) in
      if ToBoolean value then
        URLSearchParams_get (rd_search rd) (encodeURIComponent (JStr (key p)))
        = Some (encodeURIComponent
                  (if instanceof_Object value then JSON_stringify value else value))
      else
        URLSearchParams_has (rd_search rd) (encodeURIComponent (JStr (key p)))
        = false.
Proof.
  intros Hps Hnd Hp HB. eexists. split; [by apply compiled_run|].
  simpl. rewrite Hps. unfold search_of. simpl.
  set (truthy := λ p : ParamObj, ToBoolean (arg args (parameterIndex p))).
  destruct (ToBoolean (arg args (parameterIndex p))) eqn:Hv.
  - apply (get_fold_set_query_elem args _ [] p).
    + apply NoDup_map_filter. by apply NoDup_query_names.
    + apply list_elem_of_In, filter_In. split; [by apply list_elem_of_In | done].
  - unfold URLSearchParams_has, Map_has.
    change (Map_get ?q ?k) with (URLSearchParams_get q k).
    fold (query_name p). rewrite get_fold_set_query_other; [done|].
    intros p' Hp' Heq.
    apply list_elem_of_In, filter_In in Hp' as [Hp' Ht].
    apply list_elem_of_In in Hp'.
    assert (p' = p) as ->.
    { apply (NoDup_map_eq query_name ps); [by apply NoDup_query_names|done..]. }
    unfold truthy in Ht. congruence.
Qed.

(** *** The sample service, called *)

Lemma getUser_compile_empty :
  compileRequest Get "/users/{id}"
    (UserService !! metadataKey "getUser" "Path")
    (UserService !! metadataKey "getUser" "Query")
    (UserService !! metadataKey "getUser" "Body")
    (UserService !! metadataKey "getUser" "Header")
    getUser_descriptor UserClient [JStr "42"; JBool true] []
  = Ok (3, getUser_store).
Proof. by vm_compute. Qed.

(** [getUser("42", true)] on the client with its own interceptors: the
    four stages in order; the request that is sent carries the header the
    request interceptor added, and the result is the response mapped
    through [res.json()] and then through the step of the response
    interceptor. *)
Lemma call_stages_witness :
  GET "/users/{id}" UserService "getUser" getUser_descriptor AuthClient
    [JStr "42"; JBool true] []
  = ([call_requestInterceptor 3; call_http_request 3; call_map res_json;
      call_responseInterceptor (Observable_map res_json (Http_request 3))],
     Ok (Observable_map (projection "log")
           (Observable_map res_json (Http_request 3)),
         AuthClient_store))
  ∧ (rd_headers <$> describe AuthClient_store 3)
    = Some (Headers_append Headers_empty "Authorization" (JStr "token")).
Proof.
  assert (H1 : compileRequest Get "/users/{id}"
                 (UserService !! metadataKey "getUser" "Path")
                 (UserService !! metadataKey "getUser" "Query")
                 (UserService !! metadataKey "getUser" "Body")
                 (UserService !! metadataKey "getUser" "Header")
                 getUser_descriptor AuthClient [JStr "42"; JBool true] []
               = Ok (3, getUser_store)) by (by vm_compute).
  assert (H2 : requestInterceptor AuthClient 3 getUser_store
               = Ok (tt, AuthClient_store)) by (by vm_compute).
  assert (H3 : responseInterceptor AuthClient
                 (Observable_map res_json (Http_request 3)) AuthClient_store
               = Ok (Observable_map (projection "log")
                       (Observable_map res_json (Http_request 3)),
                     AuthClient_store)) by reflexivity.
  split; [|by vm_compute].
  exact (proj1 (call_stages Get "/users/{id}" UserService "getUser"
                  getUser_descriptor AuthClient [JStr "42"; JBool true] []
                  3 getUser_store AuthClient_store _ AuthClient_store
                  H1 H2 H3)).
Defined.

(** ** V. Further properties *)

(** *** Path bindings *)

Lemma string_app_inv_length a b x y :
  a +:+ x = b +:+ y → String.length a = String.length b → a = b ∧ x = y.
Proof.
  revert b. induction a as [|c a IH]; intros [|c' b] H Hlen; try done.
  change (String c (a +:+ x) = String c' (b +:+ y)) in H.
  injection H as -> H. injection Hlen as Hlen.
  destruct (IH b H Hlen) as [-> ->]. done.
Qed.

Lemma split_first_unique p s before after :
  s = before +:+ p +:+ after →
  (∀ b' a', s = b' +:+ p +:+ a' → (String.length before ≤ String.length b')%nat) →
  split_first p s = Some (before, after).
Proof.
  intros Hs Hmin.
  destruct (split_first_first _ _ _ _ Hs) as (b & a & Hsplit & Hlen).
  pose proof (split_first_Some _ _ _ _ Hsplit) as Hs'.
  pose proof (Hmin b a Hs') as Hlen'.
  rewrite Hs in Hs'.
  destruct (string_app_inv_length before b (p +:+ after) (p +:+ a))
    as [-> Hpa]; [done | lia |].
  apply String.app_inj in Hpa as ->. done.
Qed.

Lemma split_first_None p s : ¬ occurs_in p s → split_first p s = None.
Proof.
  intros Hno. destruct (split_first p s) as [[b a]|] eqn:Hsplit; [|done].
  exfalso. apply Hno. exists b, a. by apply split_first_Some.
Qed.

Lemma no_occurrence p s : split_first p s = None → ¬ occurs_in p s.
Proof.
  intros Hsplit (b & a & Hs).
  destruct (split_first_first _ _ _ _ Hs) as (b' & a' & Hsplit' & _). congruence.
Qed.

Lemma first_occurrence p s before after :
  split_first p s = Some (before, after) →
  s = before +:+ p +:+ after
  ∧ ∀ b' a', s = b' +:+ p +:+ a' → (String.length before ≤ String.length b')%nat.
Proof.
  intros Hsplit. split; [by apply split_first_Some|].
  intros b' a' Hs.
  destruct (split_first_first _ _ _ _ Hs) as (b & a & Hsplit' & Hlen). congruence.
Qed.

(** X1. One step of the Path loop.  When the text between [before] and
    [after] is the first occurrence of the placeholder [{key}] in the URL
    and the string form of the bound argument has no dollar sign, the step
    gives [before], the string form of the argument as it is (not
    percent-encoded), and [after]; a later occurrence of the placeholder
    in [after] stays. *)
Theorem path_step_first_occurrence args resUrl p before after :
  resUrl = before +:+ placeholder p +:+ after →
  (∀ b' a', resUrl = b' +:+ placeholder p +:+ a' →
            (String.length before ≤ String.length b')%nat) →
  no_dollar (ToString (arg args (parameterIndex p))) = true →
  replace_path args resUrl p
  = before +:+ ToString (arg args (parameterIndex p)) +:+ after.
Proof.
  intros Hs Hmin Hd. unfold replace_path, String_replace.
  fold (placeholder p). rewrite (split_first_unique _ _ _ _ Hs Hmin).
  by rewrite GetSubstitution_no_dollar.
Qed.

Lemma path_step_first_occurrence_witness :
  replace_path [JNum 7] "/a/{id}/b/{id}" (mkParamObj "id" 0) = "/a/7/b/{id}".
Proof.
  destruct (first_occurrence "{id}" "/a/{id}/b/{id}" "/a/" "/b/{id}" eq_refl)
    as [H1 H2].
  exact (path_step_first_occurrence [JNum 7] "/a/{id}/b/{id}" (mkParamObj "id" 0)
           "/a/" "/b/{id}" H1 H2 eq_refl).
Defined.

Lemma fold_replace_path_absent args ps url :
  Forall (λ p, ¬ occurs_in (placeholder p) url) ps →
  fold_left (replace_path args) ps url = url.
Proof.
  induction 1 as [|p ps Hp _ IH]; [done|].
  simpl. unfold replace_path at 2, String_replace.
  fold (placeholder p). by rewrite (split_first_None _ _ Hp).
Qed.

(** X2. An operation none of whose Path placeholders occurs in its URL
    template: the URL of the compiled request is the base URL followed by
    the template, unchanged, whatever the arguments are. *)
Theorem path_placeholders_absent method url target propertyKey d this args s ps :
  target !! metadataKey propertyKey "Path" = Some ps →
  Forall (λ p, ¬ occurs_in (placeholder p) url) ps →
  target !! metadataKey propertyKey "Body" ≠ Some [] →
  ∃ rd,
    compiled method url target propertyKey d this args s = Some rd
    ∧ rd_url rd = plus (getBaseUrl this) url.
Proof.
  intros Hps Hno HB. eexists. split; [by apply compiled_run|].
  simpl. rewrite Hps. unfold resUrl_of. simpl.
  by rewrite fold_replace_path_absent.
Qed.

Lemma path_placeholders_absent_witness :
  ∃ rd,
    compiled Get "/users" UserService "getUser" descriptor.initial UserClient
      [JStr "42"; JBool true] [] = Some rd
    ∧ rd_url rd = "https://api.test/users".
Proof.
  assert (H1 : UserService !! metadataKey "getUser" "Path" = Some [mkParamObj "id" 0])
    by (by vm_compute).
  assert (H2 : Forall (λ p, ¬ occurs_in (placeholder p) "/users") [mkParamObj "id" 0]).
  { constructor; [|constructor]. apply no_occurrence. reflexivity. }
  assert (H3 : UserService !! metadataKey "getUser" "Body" ≠ Some [])
    by (vm_compute; discriminate).
  exact (path_placeholders_absent Get "/users" UserService "getUser"
           descriptor.initial UserClient [JStr "42"; JBool true] []
           [mkParamObj "id" 0] H1 H2 H3).
Defined.

(** X3. A Path binding whose argument is missing from the call puts the
    text [undefined] in the place of the first occurrence of its
    placeholder. *)
Theorem path_step_missing_argument args resUrl p before after :
  (length args ≤ parameterIndex p)%nat →
  resUrl = before +:+ placeholder p +:+ after →
  (∀ b' a', resUrl = b' +:+ placeholder p +:+ a' →
            (String.length before ≤ String.length b')%nat) →
  replace_path args resUrl p = before +:+ "undefined" +:+ after.
Proof.
  intros Hi Hs Hmin. unfold replace_path, String_replace.
  fold (placeholder p). rewrite (split_first_unique _ _ _ _ Hs Hmin).
  unfold arg. by rewrite (lookup_ge_None_2 args _ Hi).
Qed.

Lemma path_step_missing_argument_witness :
  replace_path [] "/users/{id}" (mkParamObj "id" 0) = "/users/undefined".
Proof.
  destruct (first_occurrence "{id}" "/users/{id}" "/users/" EmptyString eq_refl)
    as [H1 H2].
  exact (path_step_missing_argument [] "/users/{id}" (mkParamObj "id" 0)
           "/users/" EmptyString (le_n 0) H1 H2).
Defined.

(** *** The query *)

Lemma elem_of_Map_delete {V : Type} (m : list (string * V)) k x :
  x ∈ Map_delete m k → x ∈ m.
Proof.
  induction m as [|[a b] m IH]; simpl; [done|].
  destruct (decide (a = k)); [by right; apply IH|].
  intros [->|H]%elem_of_cons; [by left | by right; apply IH].
Qed.

Lemma names_Map_delete {V : Type} (m : list (string * V)) k :
  k ∉ map fst (Map_delete m k).
Proof.
  induction m as [|[a b] m IH]; simpl; [by intros ?%elem_of_nil|].
  destruct (decide (a = k)); [done|]. simpl.
  intros [->|H]%elem_of_cons; [done | by apply IH].
Qed.

Lemma NoDup_Map_delete {V : Type} (m : list (string * V)) k :
  NoDup (map fst m) → NoDup (map fst (Map_delete m k)).
Proof.
  induction m as [|[a b] m IH]; simpl; [done|].
  intros [Ha Hnd]%NoDup_cons. destruct (decide (a = k)); [by apply IH|].
  simpl. apply NoDup_cons. split; [|by apply IH].
  intros (x & Hx & Hin)%list_elem_of_fmap. apply Ha.
  apply list_elem_of_fmap. exists x. split; [done|].
  by eapply elem_of_Map_delete.
Qed.

Lemma elem_of_URLSearchParams_set q n0 v0 x :
  x ∈ URLSearchParams_set q n0 v0 → x = (n0, v0) ∨ x ∈ q.
Proof.
  induction q as [|[a b] q IH]; simpl.
  - intros [->|H]%elem_of_cons; [by left | by right].
  - destruct (decide (a = n0)) as [->|Hne].
    + intros [->|H]%elem_of_cons; [by left|].
      right. right. by eapply elem_of_Map_delete.
    + intros [->|H]%elem_of_cons; [right; by left|].
      destruct (IH H) as [->|Hq]; [by left | right; by right].
Qed.

Lemma NoDup_URLSearchParams_set q n0 v0 :
  NoDup (map fst q) → NoDup (map fst (URLSearchParams_set q n0 v0)).
Proof.
  induction q as [|[a b] q IH]; simpl.
  - intros _. apply NoDup_singleton.
  - intros [Ha Hnd]%NoDup_cons. destruct (decide (a = n0)) as [->|Hne]; simpl.
    + apply NoDup_cons. split; [apply names_Map_delete | by apply NoDup_Map_delete].
    + apply NoDup_cons. split; [|by apply IH].
      intros (x & Hx & Hin)%list_elem_of_fmap.
      apply elem_of_URLSearchParams_set in Hin as [->|Hin]; [done|].
      apply Ha. apply list_elem_of_fmap. by exists x.
Qed.

Lemma elem_of_fold_set_query args xs q n v :
  (n, v) ∈ fold_left (set_query args) xs q →
  (n, v) ∈ q
  ∨ ∃ p, p ∈ xs ∧ n = query_name p
         ∧ v = encodeURIComponent (query_value (arg args (parameterIndex p))).
Proof.
  revert q. induction xs as [|x xs IH]; intros q; simpl; [by left|].
  intros [Hq|(p & Hp & Hn & Hv)]%IH.
  - apply elem_of_URLSearchParams_set in Hq as [[= -> ->]|Hq]; [|by left].
    right. exists x. split; [by left | done].
  - right. exists p. split; [by right | done].
Qed.

Lemma NoDup_fold_set_query args xs q :
  NoDup (map fst q) → NoDup (map fst (fold_left (set_query args) xs q)).
Proof.
  revert q. induction xs as [|x xs IH]; intros q Hq; simpl; [done|].
  apply IH. by apply NoDup_URLSearchParams_set.
Qed.

Lemma uri_safe_app a b : uri_safe (a +:+ b) = uri_safe a && uri_safe b.
Proof.
  induction a as [|c a IH]; [done|].
  change (uri_safe_char c && uri_safe (a +:+ b)
          = uri_safe_char c && uri_safe a && uri_safe b).
  by rewrite IH, andb_assoc.
Qed.

Lemma hex_digit_safe d : (d < 16)%N → uri_safe_char (hex_digit true d) = true.
Proof.
  intros Hd.
  assert (d = 0 ∨ d = 1 ∨ d = 2 ∨ d = 3 ∨ d = 4 ∨ d = 5 ∨ d = 6 ∨ d = 7
          ∨ d = 8 ∨ d = 9 ∨ d = 10 ∨ d = 11 ∨ d = 12 ∨ d = 13 ∨ d = 14
          ∨ d = 15)%N as H by lia.
  repeat (destruct H as [->|H]; [done|]). by subst.
Qed.

Lemma percent_encode_safe s : uri_safe (percent_encode s) = true.
Proof.
  induction s as [|c s IH]; [done|].
  simpl. rewrite uri_safe_app, IH, andb_true_r.
  unfold percent_encode_char. destruct (uri_unreserved c) eqn:Hc.
  - simpl. unfold uri_safe_char. by rewrite Hc.
  - pose proof (N_ascii_bounded c).
    simpl. rewrite !hex_digit_safe; [done| |].
    + apply N.mod_lt. lia.
    + apply N.Div0.div_lt_upper_bound. lia.
Qed.

(** X4. Every name and every value in the query of a compiled request is
    percent-encoded text: it consists of unreserved characters and percent
    signs only, so no raw space, ampersand, equals sign, double quote or
    brace reaches the query. *)
Theorem query_entries_percent_encoded method url target propertyKey d this args s :
  target !! metadataKey propertyKey "Body" ≠ Some [] →
  ∃ rd,
    compiled method url target propertyKey d this args s = Some rd
    ∧ ∀ n v, (n, v) ∈ rd_search rd → uri_safe n = true ∧ uri_safe v = true.
Proof.
  intros HB. eexists. split; [by apply compiled_run|].
  simpl. intros n v Hin. unfold search_of in Hin.
  apply elem_of_fold_set_query in Hin as [Hin|(p & _ & -> & ->)].
  - by apply elem_of_nil in Hin.
  - split; apply percent_encode_safe.
Qed.

Lemma query_entries_percent_encoded_witness :
  ∃ rd,
    compiled Get "/users/{id}" UserService "getUser" descriptor.initial UserClient
      [JStr "42"; JObj [("a b", JStr "x&y")]] [] = Some rd
    ∧ ∀ n v, (n, v) ∈ rd_search rd → uri_safe n = true ∧ uri_safe v = true.
Proof.
  assert (H : UserService !! metadataKey "getUser" "Body" ≠ Some [])
    by (vm_compute; discriminate).
  exact (query_entries_percent_encoded Get "/users/{id}" UserService "getUser"
           descriptor.initial UserClient [JStr "42"; JObj [("a b", JStr "x&y")]] [] H).
Defined.

(** X5. The query of a compiled request holds nothing but what the Query
    bindings put there: every entry is the percent-encoded key of a Query
    binding of the operation whose argument is truthy, with the
    percent-encoded value of that argument (its JSON text when it is an
    object or array). *)
Theorem query_entries_from_truthy_bindings
    method url target propertyKey d this args s :
  target !! metadataKey propertyKey "Body" ≠ Some [] →
  ∃ rd,
    compiled method url target propertyKey d this args s = Some rd
    ∧ ∀ n v, (n, v) ∈ rd_search rd →
        ∃ p, p ∈ params target propertyKey "Query"
             ∧ ToBoolean (arg args (parameterIndex p)) = true
             ∧ n = encodeURIComponent (JStr (key p))
             ∧ v = encodeURIComponent (query_value (arg args (parameterIndex p))).
Proof.
  intros HB. eexists. split; [by apply compiled_run|].
  simpl. intros n v Hin. unfold search_of in Hin.
  apply elem_of_fold_set_query in Hin as [Hin|(p & Hp & -> & ->)].
  - by apply elem_of_nil in Hin.
  - apply list_elem_of_In, filter_In in Hp as [Hp Ht].
    exists p. split_and!; [by apply list_elem_of_In | done..].
Qed.

Lemma query_entries_from_truthy_bindings_witness :
  ∃ rd,
    compiled Get "/users/{id}" UserService "getUser" descriptor.initial UserClient
      [JStr "42"; JNum 0] [] = Some rd
    ∧ ∀ n v, (n, v) ∈ rd_search rd →
        ∃ p, p ∈ params UserService "getUser" "Query"
             ∧ ToBoolean (arg [JStr "42"; JNum 0] (parameterIndex p)) = true
             ∧ n = encodeURIComponent (JStr (key p))
             ∧ v = encodeURIComponent
                     (query_value (arg [JStr "42"; JNum 0] (parameterIndex p))).
Proof.
  assert (H : UserService !! metadataKey "getUser" "Body" ≠ Some [])
    by (vm_compute; discriminate).
  exact (query_entries_from_truthy_bindings Get "/users/{id}" UserService "getUser"
           descriptor.initial UserClient [JStr "42"; JNum 0] [] H).
Defined.

(** X6. The query of a compiled request never holds two entries of the
    same name, also when several Query bindings share a key. *)
Theorem query_names_unique method url target propertyKey d this args s :
  target !! metadataKey propertyKey "Body" ≠ Some [] →
  ∃ rd,
    compiled method url target propertyKey d this args s = Some rd
    ∧ NoDup (map fst (rd_search rd)).
Proof.
  intros HB. eexists. split; [by apply compiled_run|].
  simpl. unfold search_of. apply NoDup_fold_set_query. constructor.
Qed.

(** X7. Of several Query bindings with the same key the last truthy one
    decides: when no binding after [p] with a truthy argument has the key
    of [p], the query holds the value of [p] under that key. *)
Theorem query_last_binding_wins
    method url target propertyKey d this args s l1 p l2 :
  target !! metadataKey propertyKey "Query" = Some (l1 ++ p :: l2)%list →
  ToBoolean (arg args (parameterIndex p)) = true →
  (∀ p', p' ∈ l2 → ToBoolean (arg args (parameterIndex p')) = true →
         key p' ≠ key p) →
  target !! metadataKey propertyKey "Body" ≠ Some [] →
  ∃ rd,
    compiled method url target propertyKey d this args s = Some rd
    ∧ URLSearchParams_get (rd_search rd) (encodeURIComponent (JStr (key p)))
      = Some (encodeURIComponent (query_value (arg args (parameterIndex p)))).
Proof.
  intros Hps Hp Hl2 HB. eexists. split; [by apply compiled_run|].
  simpl. rewrite Hps. unfold search_of. simpl.
  rewrite List.filter_app. simpl. rewrite Hp.
  rewrite fold_left_app. simpl. fold (query_name p).
  rewrite get_fold_set_query_other.
  - unfold set_query. rewrite URLSearchParams_get_set.
    unfold query_name. by rewrite decide_True.
  - intros p' Hp' Heq.
    apply list_elem_of_In, filter_In in Hp' as [Hp' Ht].
    apply (Hl2 p'); [by apply list_elem_of_In | done |].
    by apply encodeURIComponent_key_inj.
Qed.

Lemma query_names_unique_witness :
  ∃ rd,
    compiled Get "/find" SearchService "find" descriptor.initial UserClient
      [JStr "x"; JStr "y"] [] = Some rd
    ∧ NoDup (map fst (rd_search rd)).
Proof.
  assert (H : SearchService !! metadataKey "find" "Body" ≠ Some [])
    by (vm_compute; discriminate).
  exact (query_names_unique Get "/find" SearchService "find" descriptor.initial
           UserClient [JStr "x"; JStr "y"] [] H).
Defined.

Lemma query_last_binding_wins_witness :
  ∃ rd,
    compiled Get "/find" SearchService "find" descriptor.initial UserClient
      [JStr "x"; JStr "y"] [] = Some rd
    ∧ URLSearchParams_get (rd_search rd) "q" = Some "x".
Proof.
  assert (H1 : SearchService !! metadataKey "find" "Query"
               = Some ([mkParamObj "q" 1] ++ mkParamObj "q" 0 :: [])%list)
    by (by vm_compute).
  assert (H2 : ToBoolean (arg [JStr "x"; JStr "y"]
                            (parameterIndex (mkParamObj "q" 0))) = true)
    by reflexivity.
  assert (H3 : ∀ p', p' ∈ [] →
                 ToBoolean (arg [JStr "x"; JStr "y"] (parameterIndex p')) = true →
                 key p' ≠ key (mkParamObj "q" 0))
    by (intros p' Hp'; by apply elem_of_nil in Hp').
  assert (H4 : SearchService !! metadataKey "find" "Body" ≠ Some [])
    by (vm_compute; discriminate).
  exact (query_last_binding_wins Get "/find" SearchService "find"
           descriptor.initial UserClient [JStr "x"; JStr "y"] []
           [mkParamObj "q" 1] (mkParamObj "q" 0) [] H1 H2 H3 H4).
Defined.

(** *** Calls *)

Lemma methodBuilder_run method url target propertyKey d this args s req s1 :
  compileRequest method url
    (target !! metadataKey propertyKey "Path")
    (target !! metadataKey propertyKey "Query")
    (target !! metadataKey propertyKey "Body")
    (target !! metadataKey propertyKey "Header") d this args s = Ok (req, s1) →
  methodBuilder method url target propertyKey d this args s
  = match requestInterceptor this req s1 with
    | Throw e => ([call_requestInterceptor req], Throw e)
    | Ok (_, s2) =>
        let observable :=
          match descriptor.isJSON d with
          | Some true => Observable_map res_json (Http_request req)
          | _ => Http_request req
          end in
        (stages d req observable, responseInterceptor this observable s2)
    end.
Proof.
  intros Hc. unfold methodBuilder, mbind, Proc_bind, lift, calling, stages.
  rewrite Hc. destruct (requestInterceptor this req s1) as [[[] s2]|e]; [|done].
  unfold mret at 1, St_ret.
  destruct (descriptor.isJSON d) as [[|]|]; simpl;
    by destruct (responseInterceptor this _ s2).
Qed.

Lemma methodBuilder_throw method url target propertyKey d this args s :
  target !! metadataKey propertyKey "Body" = Some [] →
  methodBuilder method url target propertyKey d this args s = ([], Throw TypeError).
Proof.
  intros HB. unfold methodBuilder, mbind, Proc_bind, lift.
  by rewrite HB, compileRequest_throw.
Qed.

Lemma dispatched_stages d req res res' s :
  dispatched (stages d req res, Ok (res', s)) = describe s req.
Proof. unfold dispatched, stages. by destruct (descriptor.isJSON d) as [[|]|]. Qed.

Lemma compiled_describe method url target propertyKey d this args s req s1 :
  compileRequest method url
    (target !! metadataKey propertyKey "Path")
    (target !! metadataKey propertyKey "Query")
    (target !! metadataKey propertyKey "Body")
    (target !! metadataKey propertyKey "Header") d this args s = Ok (req, s1) →
  compiled method url target propertyKey d this args s = describe s1 req.
Proof. intros Hc. unfold compiled. by rewrite Hc. Qed.

Lemma dispatched_inherited method url target propertyKey d this args s :
  inherits_interceptors this →
  target !! metadataKey propertyKey "Body" ≠ Some [] →
  dispatched (methodBuilder method url target propertyKey d this args s)
  = compiled method url target propertyKey d this args s.
Proof.
  intros [Hi Hr] HB.
  pose proof (compileRequest_run method url
                (target !! metadataKey propertyKey "Path")
                (target !! metadataKey propertyKey "Query")
                (target !! metadataKey propertyKey "Body")
                (target !! metadataKey propertyKey "Header") d this args s HB) as Hc.
  cbv zeta in Hc.
  rewrite (methodBuilder_run _ _ _ _ _ _ _ _ _ _ Hc), Hi, Hr.
  change (dispatched (stages d (3 + length s) ?o, Ok (?o', ?s1)))
    with (dispatched (stages d (3 + length s) o, Ok (o', s1))).
  simpl requestInterceptor. simpl responseInterceptor. unfold mret, St_ret.
  cbv zeta. rewrite dispatched_stages. symmetry.
  exact (compiled_describe _ _ _ _ _ _ _ _ _ _ Hc).
Qed.

(** X8. On a client that keeps the interceptors of [RESTClient], the
    request handed to [Http.request] is the compiled request, as it was
    compiled: nothing changes it between compilation and dispatch. *)
Theorem dispatched_is_compiled method url target propertyKey d this args s :
  inherits_interceptors this →
  target !! metadataKey propertyKey "Body" ≠ Some [] →
  ∃ rd,
    compiled method url target propertyKey d this args s = Some rd
    ∧ dispatched (methodBuilder method url target propertyKey d this args s)
      = Some rd.
Proof.
  intros Hi HB. eexists. split; [by apply compiled_run|].
  rewrite dispatched_inherited by done. by apply compiled_run.
Qed.

Lemma UserClient_inherits : inherits_interceptors UserClient.
Proof. by split. Qed.

Lemma dispatched_is_compiled_witness :
  ∃ rd,
    compiled Get "/users/{id}" UserService "getUser" getUser_descriptor UserClient
      [JStr "42"; JBool true] [] = Some rd
    ∧ dispatched (methodBuilder Get "/users/{id}" UserService "getUser"
                    getUser_descriptor UserClient [JStr "42"; JBool true] [])
      = Some rd.
Proof.
  assert (H : UserService !! metadataKey "getUser" "Body" ≠ Some [])
    by (vm_compute; discriminate).
  exact (dispatched_is_compiled Get "/users/{id}" UserService "getUser"
           getUser_descriptor UserClient [JStr "42"; JBool true] []
           UserClient_inherits H).
Defined.



(** X10. A request interceptor works on the request in place, and what it
    does reaches the transport: on a client whose request interceptor adds
    a header to the request it is given, the request handed to
    [Http.request] is the compiled request with that header appended after
    the compiled ones. *)
Theorem interceptor_header_is_dispatched
    method url target propertyKey d this args s name value :
  requestInterceptor this = add_header name value →
  responseInterceptor this = responseInterceptor RESTClient_class →
  target !! metadataKey propertyKey "Body" ≠ Some [] →
  ∃ rd,
    compiled method url target propertyKey d this args s = Some rd
    ∧ dispatched (methodBuilder method url target propertyKey d this args s)
      = Some {| rd_method := rd_method rd; rd_url := rd_url rd;
                rd_headers := Headers_append (rd_headers rd) name value;
                rd_body := rd_body rd; rd_search := rd_search rd |}.
Proof.
  intros Hi Hr HB. eexists. split; [by apply compiled_run|].
  pose proof (compileRequest_run method url
                (target !! metadataKey propertyKey "Path")
                (target !! metadataKey propertyKey "Query")
                (target !! metadataKey propertyKey "Body")
                (target !! metadataKey propertyKey "Header") d this args s HB) as Hc.
  cbv zeta in Hc.
  rewrite (methodBuilder_run _ _ _ _ _ _ _ _ _ _ Hc), Hi, Hr.
  set (q := search_of _ args).
  set (h := headers_of _ _ _ args).
  set (o := {| method := method; url := _; headers := 1 + length s;
               body := _; search := length s |}).
  assert (Hrun : add_header name value (3 + length s)
                   (s ++ [OURLSearchParams q; OHeaders h; ORequestOptions o;
                          ORequest o])%list
                 = Ok (tt, (s ++ [OURLSearchParams q;
                                  OHeaders (Headers_append h name value);
                                  ORequestOptions o; ORequest o])%list)).
  { unfold add_header. erewrite St_bind_Ok; last first.
    { unfold fields. by rewrite (lookup_added s _ 3). }
    unfold headers_append. subst o. simpl headers.
    rewrite (lookup_added s _ 1). simpl.
    replace (S (length s)) with (length s + 1) by lia.
    by rewrite insert_app_r. }
  rewrite Hrun. simpl responseInterceptor. unfold mret, St_ret. cbv zeta.
  rewrite dispatched_stages. by rewrite describe_added.
Qed.

(** X11. A request interceptor that throws ends the call there: neither
    [Http.request] nor the response interceptor is called, and the call
    throws what the interceptor threw. *)
Theorem throwing_request_interceptor_stops_call
    method url target propertyKey d this args s e :
  requestInterceptor this = (λ _, throw e) →
  target !! metadataKey propertyKey "Body" ≠ Some [] →
  methodBuilder method url target propertyKey d this args s
  = ([call_requestInterceptor (3 + length s)], Throw e).
Proof.
  intros Hi HB.
  pose proof (compileRequest_run method url
                (target !! metadataKey propertyKey "Path")
                (target !! metadataKey propertyKey "Query")
                (target !! metadataKey propertyKey "Body")
                (target !! metadataKey propertyKey "Header") d this args s HB) as Hc.
  cbv zeta in Hc.
  by rewrite (methodBuilder_run _ _ _ _ _ _ _ _ _ _ Hc), Hi.
Qed.

(** X12. Whatever the interceptors do, a call never runs its stages out of
    order and never runs one twice: the calls it has made are always an
    initial part of the sequence request interceptor, [Http.request],
    (JSON mapping,) response interceptor; and a call that returns has made
    all of them. *)
Theorem call_trace_prefix method url target propertyKey d this args s :
  let run := methodBuilder method url target propertyKey d this args s in
  ∃ req res,
    run.1 `prefix_of` stages d req res
    ∧ ∀ r, run.2 = Ok r → run.1 = stages d req res.
Proof.
  cbv zeta.
  destruct (compileRequest method url
              (target !! metadataKey propertyKey "Path")
              (target !! metadataKey propertyKey "Query")
              (target !! metadataKey propertyKey "Body")
              (target !! metadataKey propertyKey "Header") d this args s)
    as [[req s1]|e] eqn:Hc.
  - rewrite (methodBuilder_run _ _ _ _ _ _ _ _ _ _ Hc).
    destruct (requestInterceptor this req s1) as [[[] s2]|e].
    + exists req, (match descriptor.isJSON d with
                   | Some true => Observable_map res_json (Http_request req)
                   | _ => Http_request req
                   end).
      cbv zeta. simpl. split; [reflexivity | done].
    + exists req, (Http_request req). split; [|done].
      simpl. unfold stages. by eexists.
  - exists 0, (Http_request 0).
    unfold methodBuilder, mbind, Proc_bind, lift. rewrite Hc. simpl.
    split; [apply prefix_nil | done].
Qed.

Lemma interceptor_header_is_dispatched_witness :
  ∃ rd,
    compiled Get "/users/{id}" UserService "getUser" getUser_descriptor TokenClient
      [JStr "42"; JBool true] [] = Some rd
    ∧ dispatched (methodBuilder Get "/users/{id}" UserService "getUser"
                    getUser_descriptor TokenClient [JStr "42"; JBool true] [])
      = Some {| rd_method := rd_method rd; rd_url := rd_url rd;
                rd_headers := Headers_append (rd_headers rd) "Authorization"
                                (JStr "token");
                rd_body := rd_body rd; rd_search := rd_search rd |}.
Proof.
  assert (H : UserService !! metadataKey "getUser" "Body" ≠ Some [])
    by (vm_compute; discriminate).
  exact (interceptor_header_is_dispatched Get "/users/{id}" UserService "getUser"
           getUser_descriptor TokenClient [JStr "42"; JBool true] []
           "Authorization" (JStr "token") eq_refl eq_refl H).
Defined.

Lemma throwing_request_interceptor_stops_call_witness :
  methodBuilder Get "/users/{id}" UserService "getUser" getUser_descriptor
    RefusingClient [JStr "42"; JBool true] []
  = ([call_requestInterceptor 3], Throw (Thrown (JStr "offline"))).
Proof.
  assert (H : UserService !! metadataKey "getUser" "Body" ≠ Some [])
    by (vm_compute; discriminate).
  exact (throwing_request_interceptor_stops_call Get "/users/{id}" UserService
           "getUser" getUser_descriptor RefusingClient [JStr "42"; JBool true] []
           (Thrown (JStr "offline")) eq_refl H).
Defined.

Lemma call_trace_prefix_witness :
  ∃ req res,
    (methodBuilder Get "/users/{id}" UserService "getUser" getUser_descriptor
       RefusingClient [JStr "42"; JBool true] []).1
    `prefix_of` stages getUser_descriptor req res.
Proof.
  destruct (call_trace_prefix Get "/users/{id}" UserService "getUser"
              getUser_descriptor RefusingClient [JStr "42"; JBool true] [])
    as (req & res & H & _).
  exists req, res. exact H.
Defined.



(** *** Decorators *)

(** X16. After any sequence of parameter decorators on a class without
    metadata - for several methods and the four roles, in any order - the
    list of a method and a role holds its own registrations, all of them,
    in the order they ran, and none of another method or role. *)
Theorem fresh_class_registrations regs propertyKey role :
  params (fold_left decorate regs ∅) propertyKey (paramName role)
  = map (λ r, {| key := reg_key r; parameterIndex := reg_index r |})
      (List.filter (on_list propertyKey role) regs).
Proof.
  rewrite registrations_interleaved. unfold params at 1.
  by rewrite lookup_empty.
Qed.

(** X17. [@BaseUrl(u)] on a class changes the URL of its requests and
    nothing else, and the base URL is joined to the resolved path as it
    is: no slash is added or removed between them. *)
Theorem BaseUrl_is_prefixed method url target propertyKey d Target args s u :
  target !! metadataKey propertyKey "Body" ≠ Some [] →
  ∃ rd rd' path,
    compiled method url target propertyKey d Target args s = Some rd
    ∧ compiled method url target propertyKey d (BaseUrl u Target) args s = Some rd'
    ∧ rd_url rd = plus (getBaseUrl Target) path
    ∧ rd_url rd' = u +:+ path
    ∧ rd_method rd' = rd_method rd
    ∧ rd_headers rd' = rd_headers rd
    ∧ rd_body rd' = rd_body rd
    ∧ rd_search rd' = rd_search rd.
Proof.
  intros HB. eexists _, _, _.
  split; [by apply compiled_run|]. split; [by apply compiled_run|]. done.
Qed.

Lemma BaseUrl_is_prefixed_witness :
  ∃ rd',
    compiled Get "/users/{id}" UserService "getUser" descriptor.initial
      (BaseUrl "https://api.test/" RESTClient_class) [JStr "42"; JBool true] []
    = Some rd'
    ∧ rd_url rd' = "https://api.test//users/42".
Proof.
  assert (H : UserService !! metadataKey "getUser" "Body" ≠ Some [])
    by (vm_compute; discriminate).
  destruct (BaseUrl_is_prefixed Get "/users/{id}" UserService "getUser"
              descriptor.initial RESTClient_class [JStr "42"; JBool true] []
              "https://api.test/" H)
    as (rd & rd' & path & H1 & H2 & H3 & H4 & _).
  exists rd'. split; [exact H2|].
  rewrite compiled_run in H1 by exact H. injection H1 as <-.
  rewrite H4. simpl in H3. unfold plus in H3. simpl in H3.
  apply String.app_inj in H3 as <-. by vm_compute.
Defined.

(** X18. The two class decorators do not depend on the order they are
    written in: a class with [@BaseUrl(u)] and [@DefaultHeaders(h)]
    compiles every call to the same request either way; and
    [@DefaultHeaders] changes the headers of a request and nothing
    else. *)
Theorem class_decorators_commute method url target propertyKey d Target args s u h :
  target !! metadataKey propertyKey "Body" ≠ Some [] →
  ∃ rd rd0,
    compiled method url target propertyKey d
      (BaseUrl u (DefaultHeaders h Target)) args s = Some rd
    ∧ compiled method url target propertyKey d
        (DefaultHeaders h (BaseUrl u Target)) args s = Some rd
    ∧ compiled method url target propertyKey d (BaseUrl u Target) args s = Some rd0
    ∧ rd_method rd = rd_method rd0
    ∧ rd_url rd = rd_url rd0
    ∧ rd_body rd = rd_body rd0
    ∧ rd_search rd = rd_search rd0.
Proof.
  intros HB. eexists _, _.
  split; [by apply compiled_run|]. split; [by apply compiled_run|].
  split; [by apply compiled_run|]. done.
Qed.

Lemma class_decorators_commute_witness :
  ∃ rd,
    compiled Get "/ping" UserService "ping" ping_descriptor
      (BaseUrl "https://api.test" (DefaultHeaders [("X", JStr "1")] RESTClient_class))
      [JStr "4"] [] = Some rd
    ∧ compiled Get "/ping" UserService "ping" ping_descriptor
        (DefaultHeaders [("X", JStr "1")] (BaseUrl "https://api.test" RESTClient_class))
        [JStr "4"] [] = Some rd.
Proof.
  assert (H : UserService !! metadataKey "ping" "Body" ≠ Some [])
    by (vm_compute; discriminate).
  destruct (class_decorators_commute Get "/ping" UserService "ping" ping_descriptor
              RESTClient_class [JStr "4"] [] "https://api.test" [("X", JStr "1")] H)
    as (rd & rd0 & H1 & H2 & _).
  exists rd. split; [exact H1 | exact H2].
Defined.

(** X20. Of two [@Body] parameters on a method that had none, the one
    whose decorator ran first is the body: its key is [Body], and the
    later one is never read. *)
Theorem first_Body_decorator_wins method url target propertyKey d this args s i j :
  target !! metadataKey propertyKey "Body" = None →
  ∃ rd,
    compiled method url (Body (Body target propertyKey i) propertyKey j)
      propertyKey d this args s = Some rd
    ∧ rd_body rd = JSON_stringify (arg args i)
    ∧ params (Body (Body target propertyKey i) propertyKey j) propertyKey "Body"
      = [mkParamObj "Body" i; mkParamObj "Body" j].
Proof.
  intros HB.
  assert (Hl : Body (Body target propertyKey i) propertyKey j
               !! metadataKey propertyKey "Body"
               = Some [mkParamObj "Body" i; mkParamObj "Body" j]).
  { unfold Body. rewrite paramBuilder_same. unfold params at 1.
    rewrite paramBuilder_same. unfold params. by rewrite HB. }
  eexists. split; [apply compiled_run; by rewrite Hl|].
  simpl. unfold params. by rewrite Hl.
Qed.

Lemma first_Body_decorator_wins_witness :
  ∃ rd,
    compiled Post "/users" CreateService "createUser" descriptor.initial UserClient
      [JStr "a"; JStr "b"] [] = Some rd
    ∧ rd_body rd = JSON_stringify (arg [JStr "a"; JStr "b"] 1).
Proof.
  destruct (first_Body_decorator_wins Post "/users" ∅ "createUser"
              descriptor.initial UserClient [JStr "a"; JStr "b"] [] 1 0
              (lookup_empty _))
    as (rd & H1 & H2 & _).
  exists rd. split; [exact H1 | exact H2].
Defined.

(** *** What each part of a request depends on *)

Lemma fold_left_ext_in {A B : Type} (f g : A → B → A) (l : list B) a :
  (∀ x y, y ∈ l → f x y = g x y) → fold_left f l a = fold_left g l a.
Proof.
  revert a. induction l as [|y l IH]; intros a H; simpl; [done|].
  rewrite H by (by left). apply IH. intros x y' Hy'. apply H. by right.
Qed.

Lemma filter_ext_in' {A : Type} (f g : A → bool) (l : list A) :
  (∀ x, x ∈ l → f x = g x) → List.filter f l = List.filter g l.
Proof.
  intros H. apply filter_ext_in. intros x Hx. apply H. by apply list_elem_of_In.
Qed.

(** X21. Each part of a compiled request depends on the arguments its own
    bindings point at and on no other: two calls whose arguments agree at
    the positions of the Path bindings have the same URL, and likewise the
    query for the Query bindings, the headers for the Header bindings and
    the body for the first Body binding. *)
Theorem parts_depend_on_their_bindings
    method url target propertyKey d this args1 args2 s :
  target !! metadataKey propertyKey "Body" ≠ Some [] →
  let agree role :=
    ∀ p, p ∈ params target propertyKey role →
         arg args1 (parameterIndex p) = arg args2 (parameterIndex p) in
  ∃ rd1 rd2,
    compiled method url target propertyKey d this args1 s = Some rd1
    ∧ compiled method url target propertyKey d this args2 s = Some rd2
    ∧ (agree "Path" → rd_url rd1 = rd_url rd2)
    ∧ (agree "Query" → rd_search rd1 = rd_search rd2)
    ∧ (agree "Header" → rd_headers rd1 = rd_headers rd2)
    ∧ (agree "Body" → rd_body rd1 = rd_body rd2).
Proof.
  intros HB agree. eexists _, _.
  split; [by apply compiled_run|]. split; [by apply compiled_run|].
  unfold agree, params. simpl. split_and!.
  - intros H. f_equal. unfold resUrl_of. apply fold_left_ext_in.
    intros x p Hp. unfold replace_path. by rewrite H.
  - intros H. unfold search_of.
    rewrite (filter_ext_in' _ (λ p, ToBoolean (arg args2 (parameterIndex p))))
      by (intros p Hp; by rewrite H).
    apply fold_left_ext_in. intros x p Hp. unfold set_query. rewrite H; [done|].
    apply list_elem_of_In in Hp. apply filter_In in Hp as [Hp _].
    by apply list_elem_of_In.
  - intros H. unfold headers_of. apply fold_left_ext_in.
    intros x p Hp. unfold append_param. by rewrite H.
  - intros H. unfold body_of.
    destruct (target !! metadataKey propertyKey "Body") as [[|p ps]|]; try done.
    simpl in H. rewrite H; [done | by left].
Qed.

Lemma parts_depend_on_their_bindings_witness :
  ∃ rd1 rd2,
    compiled Get "/users/{id}" UserService "getUser" descriptor.initial UserClient
      [JStr "42"; JBool true] [] = Some rd1
    ∧ compiled Get "/users/{id}" UserService "getUser" descriptor.initial UserClient
        [JStr "42"; JBool false] [] = Some rd2
    ∧ rd_url rd1 = rd_url rd2.
Proof.
  assert (H : UserService !! metadataKey "getUser" "Body" ≠ Some [])
    by (vm_compute; discriminate).
  destruct (parts_depend_on_their_bindings Get "/users/{id}" UserService "getUser"
              descriptor.initial UserClient [JStr "42"; JBool true]
              [JStr "42"; JBool false] [] H)
    as (rd1 & rd2 & H1 & H2 & H3 & _).
  exists rd1, rd2. split; [exact H1|]. split; [exact H2|].
  apply H3. intros p Hp.
  assert (Hps : params UserService "getUser" "Path" = [mkParamObj "id" 0])
    by (by vm_compute).
  rewrite Hps in Hp. apply list_elem_of_singleton in Hp as ->. reflexivity.
Defined.

(** *** The query, for bindings that share a key *)

Lemma Map_get_Some_elem {V : Type} (m : list (string * V)) k v :
  Map_get m k = Some v → (k, v) ∈ m.
Proof.
  induction m as [|[a b] m IH]; simpl; [done|].
  destruct (decide (a = k)) as [->|]; [intros [= ->]; by left|].
  intros H. right. by apply IH.
Qed.

Lemma get_fold_set_query_is_Some args xs q k :
  (∃ x, x ∈ xs ∧ query_name x = k) ∨ is_Some (URLSearchParams_get q k) →
  is_Some (URLSearchParams_get (fold_left (set_query args) xs q) k).
Proof.
  revert q. induction xs as [|x xs IH]; intros q H; simpl.
  - destruct H as [(x & Hx & _)|H]; [by apply elem_of_nil in Hx | done].
  - apply IH. unfold set_query at 1. rewrite URLSearchParams_get_set.
    destruct (decide (encodeURIComponent (JStr (key x)) = k)) as [Heq|Hne].
    + right. by eexists.
    + destruct H as [(y & [->|Hy]%elem_of_cons & Hk)|H].
      * by destruct Hne.
      * left. by exists y.
      * by right.
Qed.

(** C2 (as amended).  The query is filled from the Query bindings whose
    argument is truthy, in list order, by [set].  So the query has no
    entry under the percent-encoded key of a binding exactly when every
    Query binding of that key has a falsy argument - [undefined] for a
    missing one, [null], [false], [0], the empty string; a falsy binding
    alone does not keep the key out when another binding of the same key
    is truthy.  For a truthy binding the entry under its percent-encoded
    key is the percent-encoded value of a truthy binding of that key,
    where an object or array is first replaced by its JSON text; it is
    the value of the binding itself when no later truthy binding has its
    key. *)
Theorem query_assembly_shared_keys method url target propertyKey d this args s ps p :
  target !! metadataKey propertyKey "Query" = Some ps →
  p ∈ ps →
  target !! metadataKey propertyKey "Body" ≠ Some [] →
  ∃ rd,
    compiled method url target propertyKey d this args s = Some rd
    ∧ (URLSearchParams_has (rd_search rd) (encodeURIComponent (JStr (key p))) = false
       ↔ ∀ p', p' ∈ ps → key p' = key p →
               ToBoolean (arg args (parameterIndex p')) = false)
    ∧ (ToBoolean (arg args (parameterIndex p)) = true →
       ∃ p', p' ∈ ps ∧ key p' = key p
             ∧ ToBoolean (arg args (parameterIndex p')) = true
             ∧ URLSearchParams_get (rd_search rd) (encodeURIComponent (JStr (key p)))
               = Some (encodeURIComponent
                         (let value := arg args (parameterIndex p') in
                          if instanceof_Object value then JSON_stringify value
                          else value)))
    ∧ (∀ l1 l2, ps = (l1 ++ p :: l2)%list →
         ToBoolean (arg args (parameterIndex p)) = true →
         (∀ p', p' ∈ l2 → ToBoolean (arg args (parameterIndex p')) = true →
                key p' ≠ key p) →
         URLSearchParams_get (rd_search rd) (encodeURIComponent (JStr (key p)))
         = Some (encodeURIComponent
                   (let value := arg args (parameterIndex p) in
                    if instanceof_Object value then JSON_stringify value
                    else value))).
Proof.
  intros Hps Hp HB. eexists. split; [by apply compiled_run|].
  simpl. rewrite Hps. unfold search_of. simpl.
  set (truthy := λ p : ParamObj, ToBoolean (arg args (parameterIndex p))).
  fold (query_name p).
  assert (Hin : ∀ x, x ∈ List.filter truthy ps ↔ x ∈ ps ∧ truthy x = true).
  { intros x. rewrite !list_elem_of_In. apply filter_In. }
  split_and!.
  - unfold URLSearchParams_has, Map_has.
    change (Map_get ?q ?k) with (URLSearchParams_get q k). split.
    + intros Hnone p' Hp' Hk.
      destruct (ToBoolean (arg args (parameterIndex p'))) eqn:Ht; [|done].
      assert (Hs : is_Some (URLSearchParams_get
                              (fold_left (set_query args) (List.filter truthy ps) [])
                              (query_name p))).
      { apply get_fold_set_query_is_Some. left. exists p'.
        split; [by apply Hin | unfold query_name; by rewrite Hk]. }
      destruct Hs as [v Hv]. by rewrite Hv in Hnone.
    + intros Hall. rewrite get_fold_set_query_other; [done|].
      intros p' [Hp' Ht]%Hin Heq. apply encodeURIComponent_key_inj in Heq.
      unfold truthy in Ht. by rewrite (Hall p' Hp' Heq) in Ht.
  - intros Ht.
    destruct (get_fold_set_query_is_Some args (List.filter truthy ps) []
                (query_name p)) as [v Hv].
    { left. exists p. split; [by apply Hin | done]. }
    pose proof (Map_get_Some_elem _ _ _ Hv) as Hel.
    apply elem_of_fold_set_query in Hel as [Hel|(p' & Hp' & Hn & ->)].
    { by apply elem_of_nil in Hel. }
    apply Hin in Hp' as [Hp' Ht'].
    exists p'. split_and!; [done | | done | exact Hv].
    symmetry. by apply encodeURIComponent_key_inj.
  - intros l1 l2 -> Ht Hl2.
    rewrite List.filter_app. simpl. fold (truthy p). unfold truthy at 2.
    rewrite Ht. rewrite fold_left_app. simpl.
    rewrite get_fold_set_query_other.
    + unfold set_query. rewrite URLSearchParams_get_set.
      unfold query_name. by rewrite decide_True.
    + intros p' Hp' Heq.
      apply list_elem_of_In, filter_In in Hp' as [Hp' Ht'].
      apply (Hl2 p'); [by apply list_elem_of_In | done |].
      by apply encodeURIComponent_key_inj.
Qed.

(** [search({x: 1}, 0)] on [search(@Query("a b") filter, @Query("page")
    page)]: the page is filtered out; the filter is there under its encoded
    key, as encoded JSON. *)
Lemma query_assembly_shared_keys_witness :
  ∃ rd,
    compiled Get "/search" FilterService "search" descriptor.initial UserClient
      [JObj [("x", JNum 1)]; JNum 0] [] = Some rd
    ∧ URLSearchParams_has (rd_search rd) "page" = false
    ∧ URLSearchParams_get (rd_search rd) "a%20b" = Some "%7B%22x%22%3A1%7D"
    ∧ rd_search rd = [("a%20b", "%7B%22x%22%3A1%7D")].
Proof.
  assert (H1 : FilterService !! metadataKey "search" "Query"
               = Some ([mkParamObj "page" 1] ++ mkParamObj "a b" 0 :: [])%list)
    by (by vm_compute).
  assert (H2 : mkParamObj "page" 1 ∈ ([mkParamObj "page" 1]
                                       ++ mkParamObj "a b" 0 :: [])%list)
    by (by left).
  assert (H2' : mkParamObj "a b" 0 ∈ ([mkParamObj "page" 1]
                                        ++ mkParamObj "a b" 0 :: [])%list)
    by (right; by left).
  assert (H3 : FilterService !! metadataKey "search" "Body" ≠ Some [])
    by (vm_compute; discriminate).
  destruct (query_assembly_shared_keys Get "/search" FilterService "search"
              descriptor.initial UserClient [JObj [("x", JNum 1)]; JNum 0] []
              _ (mkParamObj "page" 1) H1 H2 H3) as (rd & Hrd & [_ Hpage] & _).
  destruct (query_assembly_shared_keys Get "/search" FilterService "search"
              descriptor.initial UserClient [JObj [("x", JNum 1)]; JNum 0] []
              _ (mkParamObj "a b" 0) H1 H2' H3) as (rd' & Hrd' & _ & _ & Hfilter).
  assert (rd' = rd) as -> by congruence.
  exists rd. split; [exact Hrd|]. split_and!.
  - apply Hpage. intros p' Hp' Hk.
    apply elem_of_cons in Hp' as [->|Hp']; [reflexivity|].
    apply list_elem_of_singleton in Hp' as ->. discriminate Hk.
  - apply (Hfilter [mkParamObj "page" 1] [] eq_refl eq_refl).
    intros p' Hp'. by apply elem_of_nil in Hp'.
  - rewrite compiled_run in Hrd by exact H3. injection Hrd as <-. by vm_compute.
Defined.

(** C2 (counterexample).  [find(0, "y")] on
    [find(@Query("q") a, @Query("q") b)]: the binding of [a] is a Query
    binding with a falsy argument, and the query holds its key [q]. *)
Lemma falsy_query_key_kept :
  ∃ rd ps,
    compiled Get "/find" SearchService "find" descriptor.initial UserClient
      [JNum 0; JStr "y"] [] = Some rd
    ∧ SearchService !! metadataKey "find" "Query" = Some ps
    ∧ mkParamObj "q" 0 ∈ ps
    ∧ ToBoolean (arg [JNum 0; JStr "y"] (parameterIndex (mkParamObj "q" 0))) = false
    ∧ URLSearchParams_has (rd_search rd) (key (mkParamObj "q" 0)) = true
    ∧ rd_search rd = [("q", "y")].
Proof.
  eexists _, _. split; [apply compiled_run; by vm_compute|].
  split; [by vm_compute|].
  split; [right; by left|].
  split_and!; by vm_compute.
Qed.

(** *** Decorated classes *)

(** X15. The parameter decorators never leave an empty list behind: on a
    class whose metadata they wrote, every parameter list that is there has
    a first entry, so that [pBody[0]] at line 196 is an object whenever
    [pBody] is there. *)
Theorem decorators_leave_no_empty_list target propertyKey paramName ps :
  decorated target →
  target !! metadataKey propertyKey paramName = Some ps →
  ∃ p rest, ps = p :: rest.
Proof.
  intros Hd Hps. destruct ps as [|p rest]; [|by eexists _, _].
  by destruct (decorated_nonempty target _ Hd Hps).
Qed.

Lemma decorators_leave_no_empty_list_witness :
  ∃ p rest, [mkParamObj "Body" 1; mkParamObj "Body" 0] = p :: rest.
Proof.
  assert (Hd : decorated CreateService).
  { repeat apply decorated_param. apply decorated_class. }
  assert (Hps : CreateService !! metadataKey "createUser" "Body"
                = Some [mkParamObj "Body" 1; mkParamObj "Body" 0])
    by (by vm_compute).
  exact (decorators_leave_no_empty_list CreateService "createUser" "Body" _ Hd Hps).
Defined.

(** *** Header arguments with identity *)

Lemma Map_get_map {V W : Type} (f : V → W) (m : list (string * V)) k :
  Map_get (map (λ kv, (kv.1, f kv.2)) m) k = f <$> Map_get m k.
Proof.
  induction m as [|[a b] m IH]; simpl; [done|].
  by destruct (decide (a = k)).
Qed.

Lemma Map_set_map {V W : Type} (f : V → W) (m : list (string * V)) k v :
  Map_set (map (λ kv, (kv.1, f kv.2)) m) k (f v)
  = map (λ kv, (kv.1, f kv.2)) (Map_set m k v).
Proof.
  induction m as [|[a b] m IH]; simpl; [done|].
  destruct (decide (a = k)); simpl; [done | by rewrite IH].
Qed.

Lemma read_mayBeSetNormalizedName heap h name :
  read_headers heap (HeldHeaders_mayBeSetNormalizedName h name)
  = Headers_mayBeSetNormalizedName (read_headers heap h) name.
Proof.
  unfold HeldHeaders_mayBeSetNormalizedName, Headers_mayBeSetNormalizedName.
  simpl. by destruct (Map_has (held_normalizedNames h) (toLowerCase name)).
Qed.

Lemma read_stored heap h name xs :
  read_headers heap
    {| held_headers := Map_set (held_headers h) (toLowerCase name) xs;
       held_normalizedNames := held_normalizedNames h |}
  = {| _headers := Map_set (_headers (read_headers heap h)) (toLowerCase name)
                     (map (content heap) xs);
       _normalizedNames := _normalizedNames (read_headers heap h) |}.
Proof.
  unfold read_headers. simpl. f_equal.
  by rewrite (Map_set_map (map (content heap))).
Qed.

(** The held headers read as the headers of the value model do. *)
Lemma read_append heap h name x :
  read_headers heap (HeldHeaders_append heap h name x)
  = Headers_append (read_headers heap h) name (content heap x).
Proof.
  unfold HeldHeaders_append, Headers_append, Headers_getAll.
  change (_headers (read_headers heap h))
    with (map (λ kv : string * list Held, (kv.1, map (content heap) kv.2))
            (held_headers h)).
  rewrite (Map_get_map (map (content heap))).
  destruct (Map_get (held_headers h) (toLowerCase name)) as [values|]; simpl.
  - rewrite read_stored. by rewrite map_app.
  - unfold HeldHeaders_set, Headers_set.
    rewrite read_mayBeSetNormalizedName. f_equal.
    destruct (content heap x) as [| | | | |[|e l]|] eqn:Hx;
      rewrite ?read_stored; simpl; by rewrite ?Hx.
Qed.

Lemma read_hold heap h : read_headers heap (hold h) = h.
Proof.
  destruct h as [hs names]. unfold read_headers, hold. simpl. f_equal.
  induction hs as [|[k vs] hs IH]; simpl; [done|].
  rewrite IH. do 2 f_equal.
  induction vs as [|v vs IHv]; simpl; [done | by rewrite IHv].
Qed.

Lemma arg_content heap args i :
  arg (map (content heap) args) i = content heap (arg_held args i).
Proof.
  unfold arg, arg_held.
  change (map (content heap) args) with (content heap <$> args).
  rewrite list_lookup_fmap. by destruct (args !! i).
Qed.

Lemma read_headers_held heap defaults statics pHeader args :
  read_headers heap (headers_held heap defaults statics pHeader args)
  = headers_of defaults statics pHeader (map (content heap) args).
Proof.
  unfold headers_held, headers_of.
  generalize (fold_left append_static (default [] statics) (Headers_init defaults)).
  intros h0. rewrite <- (read_hold heap h0) at 2.
  generalize (hold h0). clear h0.
  induction (default [] pHeader) as [|p ps IH]; intros h; simpl; [done|].
  rewrite IH. f_equal. unfold append_param.
  by rewrite read_append, arg_content.
Qed.

(** Appending primitives leaves no reference in the headers. *)
Lemma references_stored h k xs :
  references h = [] →
  omap (λ x, match x with by_reference l => Some l | by_value _ => None end) xs = [] →
  references {| held_headers := Map_set (held_headers h) k xs;
                held_normalizedNames := held_normalizedNames h |} = [].
Proof.
  unfold references. simpl. generalize (held_headers h). intros m.
  induction m as [|[a b] m IH]; simpl.
  - intros _ ->. done.
  - intros [Hb Hm]%app_eq_nil Hxs. destruct (decide (a = k)); simpl.
    + by rewrite Hxs, Hm.
    + by rewrite Hb, IH.
Qed.

Lemma references_mayBeSetNormalizedName h name :
  references (HeldHeaders_mayBeSetNormalizedName h name) = references h.
Proof.
  unfold HeldHeaders_mayBeSetNormalizedName.
  by destruct (Map_has (held_normalizedNames h) (toLowerCase name)).
Qed.

Lemma references_lookup h k xs :
  references h = [] → Map_get (held_headers h) k = Some xs →
  omap (λ x, match x with by_reference l => Some l | by_value _ => None end) xs = [].
Proof.
  unfold references. generalize (held_headers h). intros m.
  induction m as [|[a b] m IH]; simpl; [done|].
  intros [Hb Hm]%app_eq_nil. destruct (decide (a = k)).
  - by intros [= <-].
  - by apply IH.
Qed.

Lemma references_append heap h name x :
  references h = [] → primitive x = true →
  references (HeldHeaders_append heap h name x) = [].
Proof.
  intros Hh Hx. destruct x as [v|l]; [|done].
  unfold HeldHeaders_append.
  destruct (Map_get (held_headers h) (toLowerCase name)) as [values|] eqn:Hn.
  - apply references_stored; [done|].
    rewrite omap_app, (references_lookup _ _ _ Hh Hn). done.
  - unfold HeldHeaders_set. rewrite references_mayBeSetNormalizedName.
    destruct (content heap (by_value v)) as [| | | | |[|e es]|];
      try done; by apply references_stored.
Qed.

Lemma references_hold h : references (hold h) = [].
Proof.
  unfold references, hold. simpl. generalize (_headers h). intros m.
  induction m as [|[k vs] m IH]; simpl; [done|].
  rewrite IH, app_nil_r.
  induction vs as [|v vs IHv]; simpl; [done | exact IHv].
Qed.

Lemma references_headers_held heap defaults statics pHeader args :
  (∀ p, p ∈ default [] pHeader → primitive (arg_held args (parameterIndex p)) = true) →
  references (headers_held heap defaults statics pHeader args) = [].
Proof.
  unfold headers_held.
  generalize (references_hold
                (fold_left append_static (default [] statics) (Headers_init defaults))).
  generalize (hold (fold_left append_static (default [] statics)
                      (Headers_init defaults))).
  induction (default [] pHeader) as [|p ps IH]; intros h Hh Hp; simpl; [done|].
  apply IH.
  - apply references_append; [done|]. apply Hp. by left.
  - intros p' Hp'. apply Hp. by right.
Qed.

(** Headers built from values that are no objects hold no object. *)
Lemma plain_stored h k vs :
  plain h → Forall (λ v, instanceof_Object v = false) vs →
  plain {| _headers := Map_set (_headers h) k vs;
           _normalizedNames := _normalizedNames h |}.
Proof.
  unfold plain. simpl. generalize (_headers h). intros m Hm Hvs.
  induction Hm as [|[a b] m Hb Hm IH]; simpl.
  - by repeat constructor.
  - destruct (decide (a = k)); by constructor.
Qed.

Lemma plain_lookup h k vs :
  plain h → Map_get (_headers h) k = Some vs →
  Forall (λ v, instanceof_Object v = false) vs.
Proof.
  unfold plain. generalize (_headers h). intros m Hm.
  induction Hm as [|[a b] m Hb Hm IH]; simpl; [done|].
  destruct (decide (a = k)); [by intros [= <-] | done].
Qed.

Lemma plain_mayBeSetNormalizedName h name :
  plain h → plain (Headers_mayBeSetNormalizedName h name).
Proof.
  unfold Headers_mayBeSetNormalizedName.
  by destruct (Map_has (_normalizedNames h) (toLowerCase name)).
Qed.

Lemma plain_append h name v :
  plain h → instanceof_Object v = false → plain (Headers_append h name v).
Proof.
  intros Hh Hv. unfold Headers_append, Headers_getAll.
  destruct (Map_get (_headers h) (toLowerCase name)) as [values|] eqn:Hn.
  - apply plain_stored; [done|]. apply Forall_app. split.
    + by eapply plain_lookup.
    + by repeat constructor.
  - unfold Headers_set. apply plain_mayBeSetNormalizedName.
    destruct v as [| | | | |l|]; try done;
      apply plain_stored; by repeat constructor.
Qed.

Lemma plain_delete h name : plain h → plain (Headers_delete h name).
Proof.
  unfold plain, Headers_delete. simpl. generalize (_headers h). intros m Hm.
  induction Hm as [|[a b] m Hb Hm IH]; simpl; [done|].
  destruct (decide (a = toLowerCase name)); [done | by constructor].
Qed.

Lemma plain_init defaults :
  Forall (λ kv : string * JsValue, instanceof_Object kv.2 = false)
    (default [] defaults) →
  plain (Headers_init defaults).
Proof.
  destruct defaults as [props|]; simpl; [|intros _; constructor].
  assert (H0 : plain Headers_empty) by constructor.
  revert H0. generalize Headers_empty.
  induction props as [|[n v] props IH]; intros h Hh Hp; simpl; [done|].
  apply Forall_cons in Hp as [Hv Hp]. apply IH; [|done].
  unfold Headers_init_property. simpl in *.
  destruct v as [| | | | |l|]; try done; simpl;
    (apply plain_append; [by apply plain_delete | done]).
Qed.

Lemma plain_headers_of defaults statics pHeader args :
  Forall (λ kv : string * JsValue, instanceof_Object kv.2 = false)
    (default [] defaults) →
  Forall (λ kv : string * JsValue, instanceof_Object kv.2 = false)
    (default [] statics) →
  (∀ p, p ∈ default [] pHeader →
        instanceof_Object (arg args (parameterIndex p)) = false) →
  plain (headers_of defaults statics pHeader args).
Proof.
  intros Hd Hs Hp. unfold headers_of.
  assert (H1 : plain (fold_left append_static (default [] statics)
                        (Headers_init defaults))).
  { generalize (plain_init defaults Hd). generalize (Headers_init defaults).
    induction Hs as [|[n v] props Hv _ IH]; intros h Hh; simpl; [done|].
    apply IH. by apply plain_append. }
  revert H1. generalize (fold_left append_static (default [] statics)
                           (Headers_init defaults)).
  induction (default [] pHeader) as [|p ps IH]; intros h Hh; simpl; [done|].
  apply IH.
  - intros p' Hp'. apply Hp. by right.
  - apply plain_append; [done|]. apply Hp. by left.
Qed.

Lemma primitive_content heap x :
  primitive x = true → instanceof_Object (content heap x) = false.
Proof. destruct x as [v|l]; [|done]. simpl. by intros ?%negb_true_iff. Qed.



